(** * docpull scraper: link discovery and content extraction

    A shallow embedding of [scraper/core.py], [scraper/models.py] and
    [scraper/extractors/*.py].  Python [str] values are modelled as
    [string] (sequences of 8-bit characters, i.e. the UTF-8 bytes of the
    text), Python sets as [gset string], exceptions as the [Raise] branch
    of [result] carrying [str(e)]. *)

From Stdlib Require Import ZArith Ascii String Lia.
From stdpp Require Import base list sets gmap strings sorting.

Local Open Scope string_scope.
Local Open Scope Z_scope.

(** ** Exceptions *)

(** A computation that may raise; only [str(e)] of the exception is ever
    observed by the engine. *)
Inductive result (A : Type) : Type :=
| Ok (a : A)
| Raise (msg : string).
Arguments Ok {A} a.
Arguments Raise {A} msg.

(** Sequencing: the first exception raised propagates.  With this
    instance [x ← m; k] reads as "run [m], bind its value to [x]". *)
#[global] Instance result_bind : MBind result := fun A B k m =>
  match m with
  | Ok a => k a
  | Raise e => Raise e
  end.
#[global] Instance result_ret : MRet result := @Ok.

(** ** Python string primitives *)

Module Py.

(** The character [chr 34]. *)
Definition dquote : ascii := ascii_of_nat 34.

(** [ch in s] for a one-character [ch]. *)
Fixpoint has_char (ch : ascii) (s : string) : bool :=
  match s with
  | EmptyString => false
  | String c s' => Ascii.eqb c ch || has_char ch s'
  end.

(** [s.split(sep)[0]] for a one-character [sep]. *)
Fixpoint split_head (sep : ascii) (s : string) : string :=
  match s with
  | EmptyString => EmptyString
  | String c s' =>
      if Ascii.eqb c sep then EmptyString else String c (split_head sep s')
  end.

(** [s.rstrip(ch)] for a one-character [ch]. *)
Fixpoint rstrip (ch : ascii) (s : string) : string :=
  match s with
  | EmptyString => EmptyString
  | String c s' =>
      match rstrip ch s' with
      | EmptyString => if Ascii.eqb c ch then EmptyString else String c EmptyString
      | r => String c r
      end
  end.

(** [s.startswith(p)]. *)
Definition startswith (s p : string) : bool := String.prefix p s.

(** [p in s]. *)
Fixpoint contains (p s : string) : bool :=
  String.prefix p s ||
  match s with
  | EmptyString => false
  | String _ s' => contains p s'
  end.

(** [s[n:]]. *)
Fixpoint drop (n : nat) (s : string) : string :=
  match n, s with
  | O, _ => s
  | S _, EmptyString => EmptyString
  | S n', String _ s' => drop n' s'
  end.

End Py.

(** ** [Extractor._clean_url] *)

Definition _clean_url (url : string) : string :=
  Py.rstrip "/" (Py.split_head "#" (Py.split_head "?" url)).

(** A URL written as stem, optional trailing slash, optional query and
    optional fragment. *)
Definition url_with (stem : string) (slash : bool)
    (query fragment : option string) : string :=
  stem ++ (if slash then "/" else "")
       ++ match query with Some q => String "?" q | None => "" end
       ++ match fragment with Some f => String "#" f | None => "" end.

(** ** [models.py] *)

Inductive Mode := fetch | browser.
Inductive Operation := links_op | content_op.
Inductive ExtractMethod := click_copy | text_content | inner_html | custom.

#[global] Instance Mode_eq_dec : EqDecision Mode.
Proof. solve_decision. Defined.
#[global] Instance ExtractMethod_eq_dec : EqDecision ExtractMethod.
Proof. solve_decision. Defined.

Module LinksConfig.
Record t := mk {
  startUrls : list string;
  pattern : string;
  waitFor : option string;
  maxDepth : Z }.
End LinksConfig.

Module ContentConfig.
Record t := mk {
  mode : option Mode;
  waitFor : option string;
  selector : string;
  method : ExtractMethod }.
End ContentConfig.

Module SiteConfig.
Record t := mk {
  name : string;
  baseUrl : string;
  mode : Mode;
  extractor : string;
  links : option LinksConfig.t;
  content : option ContentConfig.t }.
End SiteConfig.

Module ScrapeResult.
Record t := mk {
  site : string;
  operation : Operation;
  success : bool;
  data : list string;
  error : option string }.
End ScrapeResult.

(** The dicts handed to the extractors: [model_dump()] of the sub-config
    with the key ["baseUrl"] added.  Every key is always present, so
    [config.get(key, default)] never yields the default. *)
Module LinksDict.
Record t := mk {
  startUrls : list string;
  pattern : string;
  waitFor : option string;
  maxDepth : Z;
  baseUrl : string }.
End LinksDict.

Module ContentDict.
Record t := mk {
  mode : option Mode;
  waitFor : option string;
  selector : string;
  method : ExtractMethod;
  baseUrl : string }.
End ContentDict.

(** ** The browser page as seen by the extractors *)

Module Element.
Record t := mk {
  inner_html : result string;
  text_content : result (option string) }.
End Element.

(** What a live Playwright page answers to the calls the extractors make:
    [eval_hrefs] is [eval_on_selector_all("a[href]", e => e.href)],
    [read_clipboard] is the [evaluate] of the clipboard script. *)
Module Page.
Record t := mk {
  eval_hrefs : result (list string);
  wait_for_selector : option string -> result unit;
  query_selector_all : string -> result (list Element.t);
  click : string -> result unit;
  read_clipboard : result string }.
End Page.

Inductive page_or_html :=
| Html (html : string)
| LivePage (page : Page.t).

(** ** External collaborators *)

(** The components of [urllib.parse.urlparse] the code reads. *)
Record ParseResult := { scheme : string; netloc : string }.

(** One call of the engine to an executor. *)
Inductive Call :=
| FetchCall (url : string)
| BrowserCall (url : string) (wait_for : option string) (permissions : list string).

(** Everything the engine reaches outside this repository: the standard
    library's URL functions, the parsed [config/sites.json] (reading it,
    or validating one site's entry, may raise), the HTTP client behind
    [fetch_html] and the browser behind [browser_page]. *)
Class Env := {
  urlparse : string -> result ParseResult;
  urljoin : string -> string -> result string;
  sites_json : result (list (string * result SiteConfig.t));
  fetch_html : string -> result string;
  browser_page : string -> option string -> list string -> result Page.t }.

(** ** More of Python *)

Module PyList.

(** [str.isascii]. *)
Definition isascii (s : string) : bool :=
  forallb (fun c => (nat_of_ascii c <? 128)%nat) (list_ascii_of_string s).

Definition hex_digit (n : nat) : ascii :=
  nth n (list_ascii_of_string "0123456789abcdef") "0"%char.

(** One character inside [repr] of a [str] delimited by [quote]: the
    delimiter and the backslash get a backslash, tab, line feed and
    carriage return their letter, the other control characters and DEL
    two hexadecimal digits.  Bytes from 128 on are copied, as CPython
    copies the printable characters beyond ASCII; those it escapes are
    outside this model. *)
Definition repr_char (quote c : ascii) : string :=
  let n := nat_of_ascii c in
  if (Ascii.eqb c quote || Ascii.eqb c "\")%bool then String "\" (String c "")
  else if (n =? 9)%nat then "\t"
  else if (n =? 10)%nat then "\n"
  else if (n =? 13)%nat then "\r"
  else if ((n <? 32) || (n =? 127))%nat
  then String "\" (String "x" (String (hex_digit (n / 16))
                                (String (hex_digit (n mod 16)) "")))
  else String c "".

(** [repr] of a [str]: in single quotes, or in double quotes when it
    holds a single quote and no double quote. *)
Definition repr_str (s : string) : string :=
  let quote :=
    if (Py.has_char "'" s && negb (Py.has_char Py.dquote s))%bool
    then Py.dquote else "'"%char in
  String quote
    (String.concat "" (map (repr_char quote) (list_ascii_of_string s))
       ++ String quote "").

(** [repr] of a list of strings. *)
Definition repr (l : list string) : string :=
  "[" ++ String.concat ", " (map repr_str l) ++ "]".

(** [sorted(s)] for a set of strings: the ascending enumeration. *)
Definition sorted (s : gset string) : list string :=
  merge_sort String.le (elements s).

(** [zip(a, b)]. *)
Fixpoint zip {A B} (a : list A) (b : list B) : list (A * B) :=
  match a, b with
  | x :: a', y :: b' => (x, y) :: zip a' b'
  | _, _ => []
  end.

End PyList.

Module PyStr.

(** [str.isspace] on the 7-bit range; white space outside it is not
    recognised by this model. *)
Definition is_space (c : ascii) : bool :=
  let n := nat_of_ascii c in
  ((9 <=? n) && (n <=? 13) || (28 <=? n) && (n <=? 32))%nat.

Fixpoint lstrip (s : string) : string :=
  match s with
  | EmptyString => EmptyString
  | String c s' => if is_space c then lstrip s' else s
  end.

Fixpoint rstrip (s : string) : string :=
  match s with
  | EmptyString => EmptyString
  | String c s' =>
      match rstrip s' with
      | EmptyString => if is_space c then EmptyString else String c EmptyString
      | r => String c r
      end
  end.

(** [s.strip()]. *)
Definition strip (s : string) : string := rstrip (lstrip s).

End PyStr.

(** ** The [re.finditer] scan of [_extract_links_from_html]

    The pattern is the literal [href=], a double quote, the longest run of
    characters other than the double quote (group 1), and a double quote. *)

Module Re.

(** The text up to the next double quote, if there is one. *)
Fixpoint until_quote (s : string) : option string :=
  match s with
  | EmptyString => None
  | String c s' =>
      if Ascii.eqb c Py.dquote then Some EmptyString
      else String c <$> until_quote s'
  end.

(** The pattern matched at the start of [s]: group 1. *)
Definition match_href (s : string) : option string :=
  if Py.startswith s ("href=" ++ String Py.dquote "")
  then until_quote (Py.drop 6 s) else None.

(** Group 1 of the successive non-overlapping matches, left to right;
    [skip] counts the characters still covered by the previous match. *)
Fixpoint finditer_href (skip : nat) (s : string) : list string :=
  match s with
  | EmptyString => []
  | String _ s' =>
      match skip with
      | S k => finditer_href k s'
      | O =>
          match match_href s with
          | Some g => g :: finditer_href (6 + String.length g) s'
          | None => finditer_href 0 s'
          end
      end
  end.

End Re.

(** ** [extractors/__init__.py]: the registry *)

Inductive Extractor :=
| DefaultExtractor
| TerraformExtractor
| ModalExtractor
| ConvexExtractor
| CursorExtractor
| ClaudeCodeExtractor
| UnslothExtractor.

#[global] Instance Extractor_eq_dec : EqDecision Extractor.
Proof. solve_decision. Defined.

(** [EXTRACTORS], in registration (import) order. *)
Definition EXTRACTORS : list (string * Extractor) :=
  [("default", DefaultExtractor); ("terraform", TerraformExtractor);
   ("modal", ModalExtractor); ("convex", ConvexExtractor);
   ("cursor", CursorExtractor); ("claude_code", ClaudeCodeExtractor);
   ("unsloth", UnslothExtractor)].

Fixpoint dict_get {V} (k : string) (d : list (string * V)) : option V :=
  match d with
  | [] => None
  | (k', v) :: d' => if String.eqb k k' then Some v else dict_get k d'
  end.

Definition get_extractor (name : string) : result Extractor :=
  match dict_get name EXTRACTORS with
  | None =>
      Raise ("Unknown extractor: " ++ name ++ ". Available: "
               ++ PyList.repr (map fst EXTRACTORS))
  | Some cls => Ok cls
  end.

(** ** [extractors/default.py] and the site-specific extractors *)

Section Extractors.
Context `{Env}.

(** [Extractor.setup_browser] does nothing; the Terraform override tries
    to dismiss the consent banner and swallows every exception.  Neither
    contributes to the result. *)
Definition setup_browser (e : Extractor) (page : Page.t) : result unit := Ok ().

(** The loop of [_extract_links_from_html] over the matches. *)
Fixpoint links_from_matches (base_url pattern : string)
    (matches : list string) (links : gset string) : result (gset string) :=
  match matches with
  | [] => Ok links
  | link :: rest =>
      let link := _clean_url link in
      link ← (if Py.startswith link "/" then
                parsed ← urlparse base_url;
                Ok (scheme parsed ++ "://" ++ netloc parsed ++ link)
              else if negb (Py.startswith link "http") then
                urljoin base_url link
              else Ok link);
      if negb (String.eqb pattern "") && negb (Py.contains pattern link) then
        links_from_matches base_url pattern rest links
      else
        p1 ← urlparse link;
        p2 ← urlparse base_url;
        if String.eqb (netloc p1) (netloc p2) then
          links_from_matches base_url pattern rest ({[link]} ∪ links)
        else links_from_matches base_url pattern rest links
  end.

Definition _extract_links_from_html (html base_url pattern : string)
    : result (list string) :=
  links ← links_from_matches base_url pattern (Re.finditer_href 0 html) ∅;
  Ok (PyList.sorted links).

(** The loop of [_extract_links_from_page] over the anchors' hrefs. *)
Fixpoint links_from_hrefs (base_url pattern : string)
    (raw_links : list string) (links : gset string) : result (gset string) :=
  match raw_links with
  | [] => Ok links
  | link :: rest =>
      let link := _clean_url link in
      if negb (String.eqb pattern "") && negb (Py.contains pattern link) then
        links_from_hrefs base_url pattern rest links
      else
        keep ← (if Py.startswith link base_url then Ok true
                else p1 ← urlparse link;
                     p2 ← urlparse base_url;
                     Ok (String.eqb (netloc p1) (netloc p2)));
        if keep : bool then
          links_from_hrefs base_url pattern rest ({[link]} ∪ links)
        else links_from_hrefs base_url pattern rest links
  end.

Definition _extract_links_from_page (page : Page.t) (base_url pattern : string)
    : result (list string) :=
  raw_links ← Page.eval_hrefs page;
  links ← links_from_hrefs base_url pattern raw_links ∅;
  Ok (PyList.sorted links).

Definition _click_copy (page : Page.t) (selector : string) : result (list string) :=
  _ ← Page.click page selector;
  content ← Page.read_clipboard page;
  Ok (if String.eqb content "" then [] else [content]).

Definition _text_content (page : Page.t) (selector : string) : result (list string) :=
  elements ← Page.query_selector_all page selector;
  mapM (fun el =>
          text ← Element.text_content el;
          Ok (match text with
              | Some t => if String.eqb t "" then "" else PyStr.strip t
              | None => ""
              end)) elements.

Definition _inner_html (page : Page.t) (selector : string) : result (list string) :=
  elements ← Page.query_selector_all page selector;
  mapM (fun el =>
          html ← Element.inner_html el;
          Ok (if String.eqb html "" then "" else PyStr.strip html)) elements.

(** [terraform.py]: the loop keeping the cleaned links under the base URL. *)
Definition terraform_doc_links (base_url : string) (links : list string)
    : gset string :=
  fold_left (fun results link =>
               let clean_link := _clean_url link in
               if Py.startswith clean_link base_url
               then {[clean_link]} ∪ results else results)
            links ∅.

(** [extract_links], dispatched on the class of the extractor: Terraform
    overrides it, every other class inherits the default. *)
Definition extract_links (e : Extractor) (page_or_html : page_or_html)
    (config : LinksDict.t) : result (list string) :=
  match e with
  | TerraformExtractor =>
      match page_or_html with
      | Html _ =>
          Raise "TerraformExtractor requires browser mode for link extraction"
      | LivePage page =>
          let base_url := LinksDict.baseUrl config in
          let wait_for := LinksDict.waitFor config in
          _ ← setup_browser e page;
          _ ← Page.wait_for_selector page wait_for;
          links ← Page.eval_hrefs page;
          Ok (PyList.sorted (terraform_doc_links base_url links))
      end
  | _ =>
      let base_url := LinksDict.baseUrl config in
      let pattern := LinksDict.pattern config in
      match page_or_html with
      | Html html => _extract_links_from_html html base_url pattern
      | LivePage page => _extract_links_from_page page base_url pattern
      end
  end.

(** [extract_content], dispatched on the class of the extractor. *)
Definition extract_content (e : Extractor) (page_or_html : page_or_html)
    (config : ContentDict.t) : result (list string) :=
  match e with
  | DefaultExtractor =>
      let method := ContentDict.method config in
      let selector := ContentDict.selector config in
      match page_or_html with
      | Html html => Ok [html]
      | LivePage page =>
          match method with
          | click_copy => _click_copy page selector
          | text_content => _text_content page selector
          | _ => _inner_html page selector
          end
      end
  | TerraformExtractor =>
      match page_or_html with
      | Html _ =>
          Raise "TerraformExtractor requires browser mode for content extraction"
      | LivePage page =>
          let selector := ContentDict.selector config in
          _ ← setup_browser e page;
          _ ← Page.wait_for_selector page (Some selector);
          _inner_html page selector
      end
  | ModalExtractor | ConvexExtractor | CursorExtractor
  | ClaudeCodeExtractor | UnslothExtractor =>
      match page_or_html with
      | Html html => Ok [html]
      | LivePage page =>
          let selector := ContentDict.selector config in
          _ ← Page.wait_for_selector page (Some selector);
          _click_copy page selector
      end
  end.

End Extractors.

(** ** [core.py] *)

(** The variables of the fetch-mode loop of [scrape_links]; [fetched]
    records, in order, the batch entries handed to [fetch_html]. *)
Module Crawl.
Record t := mk {
  to_visit : list (string * Z);
  visited : gset string;
  all_links : gset string;
  fetched : list (string * Z) }.
End Crawl.

Section Core.
Context `{Env}.

Definition load_site_config (site_id : string) : result SiteConfig.t :=
  data ← sites_json;
  match dict_get site_id data with
  | None =>
      Raise ("Unknown site: " ++ site_id ++ ". Available: "
               ++ PyList.repr (map fst data))
  | Some site_data => site_data
  end.

Definition links_dict (c : LinksConfig.t) (base_url : string) : LinksDict.t :=
  LinksDict.mk (LinksConfig.startUrls c) (LinksConfig.pattern c)
    (LinksConfig.waitFor c) (LinksConfig.maxDepth c) base_url.

Definition content_dict (c : ContentConfig.t) (base_url : string) : ContentDict.t :=
  ContentDict.mk (ContentConfig.mode c) (ContentConfig.waitFor c)
    (ContentConfig.selector c) (ContentConfig.method c) base_url.

Definition failed (site_id : string) (op : Operation) (e : string) : ScrapeResult.t :=
  ScrapeResult.mk site_id op false [] (Some e).

Definition succeeded (site_id : string) (op : Operation) (data : list string)
    : ScrapeResult.t :=
  ScrapeResult.mk site_id op true data None.

Section FetchLoop.
Variable extractor : Extractor.
Variable links_config : LinksDict.t.
Variable max_depth : Z.

(** The inner [while to_visit and len(batch) < 10] loop. *)
Fixpoint pop_batch (to_visit : list (string * Z)) (visited : gset string)
    (batch : list (string * Z))
    : list (string * Z) * gset string * list (string * Z) :=
  match to_visit with
  | [] => (to_visit, visited, batch)
  | (url, depth) :: rest =>
      if decide (length batch < 10)%nat then
        if decide ((url ∉ visited) ∧ depth ≤ max_depth) then
          pop_batch rest ({[url]} ∪ visited) (batch ++ [(url, depth)])
        else pop_batch rest visited batch
      else (to_visit, visited, batch)
  end.

(** One round of [for link in links]. *)
Definition add_link (depth : Z) (st : Crawl.t) (link : string) : Crawl.t :=
  let all_links := {[link]} ∪ Crawl.all_links st in
  if decide (depth < max_depth ∧ link ∉ Crawl.visited st) then
    Crawl.mk (Crawl.to_visit st ++ [(link, depth + 1)]) (Crawl.visited st)
      all_links (Crawl.fetched st)
  else
    Crawl.mk (Crawl.to_visit st) (Crawl.visited st) all_links (Crawl.fetched st).

(** The loop [for (url, depth), result in zip(batch, results)]; the second
    component is the exception that left it, if any. *)
Fixpoint process_batch (items : list ((string * Z) * result string))
    (st : Crawl.t) : Crawl.t * option string :=
  match items with
  | [] => (st, None)
  | ((url, depth), res) :: rest =>
      match res with
      | Raise _ => process_batch rest st
      | Ok html =>
          match extract_links extractor (Html html) links_config with
          | Raise e => (st, Some e)
          | Ok links => process_batch rest (fold_left (add_link depth) links st)
          end
      end
  end.

(** One pass through the body of [while to_visit]. *)
Definition crawl_iter (st : Crawl.t) : Crawl.t * option string :=
  let '(to_visit, visited, batch) :=
    pop_batch (Crawl.to_visit st) (Crawl.visited st) [] in
  let st := Crawl.mk to_visit visited (Crawl.all_links st) (Crawl.fetched st) in
  match batch with
  | [] => (st, None)
  | _ =>
      let results := map (fun '(url, _) => fetch_html url) batch in
      let st := Crawl.mk (Crawl.to_visit st) (Crawl.visited st)
                  (Crawl.all_links st) (Crawl.fetched st ++ batch) in
      process_batch (PyList.zip batch results) st
  end.

(** [while to_visit], unrolled at most [fuel] times; [None] when the fuel
    runs out before the loop is left. *)
Fixpoint crawl (fuel : nat) (st : Crawl.t) : option (Crawl.t * option string) :=
  match Crawl.to_visit st with
  | [] => Some (st, None)
  | _ =>
      match fuel with
      | O => None
      | S fuel' =>
          match crawl_iter st with
          | (st', Some e) => Some (st', Some e)
          | (st', None) => crawl fuel' st'
          end
      end
  end.

(** *** Notions for bounding and describing the loop

    Nothing from here to the end of the section is in the source.
    [weight] and [crawl_budget] give [scrape_links] below a number of
    iterations that [crawl_returns] shows to suffice; the rest is used to
    state what the loop does. *)

(** The links the strategy finds at [url]; none if the fetch or the
    extraction raises. *)
Definition found (url : string) : list string :=
  match fetch_html url with
  | Ok html =>
      match extract_links extractor (Html html) links_config with
      | Ok links => links
      | Raise _ => []
      end
  | Raise _ => []
  end.

(** A bound on the work an entry can still cause: itself and, while it
    lies [levels] above the depth limit, the links of its page. *)
Fixpoint weight (levels : nat) (url : string) : nat :=
  match levels with
  | O => 1
  | S levels' => S (sum_list_with (weight levels') (found url))
  end.

Definition entry_weight (entry : string * Z) : nat :=
  weight (Z.to_nat (max_depth - entry.2)) entry.1.

(** Enough iterations for the loop to run to its end from [st]. *)
Definition crawl_budget (st : Crawl.t) : nat :=
  S (sum_list_with entry_weight (Crawl.to_visit st)).

(** The entries a page at [depth] contributes to the frontier. *)
Definition children (depth : Z) (visited : gset string) (links : list string)
    : list (string * Z) :=
  (fun link => (link, depth + 1))
    <$> filter (fun link => depth < max_depth ∧ link ∉ visited) links.

(** The strategy raises on no served page among [batch]. *)
Definition extracted (batch : list (string * Z)) : Prop :=
  ∀ u d html, (u, d) ∈ batch -> fetch_html u = Ok html ->
    ∃ links, extract_links extractor (Html html) links_config = Ok links.

(** The page at [url] is served and the strategy finds [links] on it. *)
Definition page_links (url : string) (links : list string) : Prop :=
  ∃ html, fetch_html url = Ok html
          ∧ extract_links extractor (Html html) links_config = Ok links.

(** [hops seeds n url]: [url] is reached from a seed by following [n]
    links, each found by the strategy on a served page. *)
Inductive hops (seeds : list string) : Z -> string -> Prop :=
| hops_seed url : url ∈ seeds -> hops seeds 0 url
| hops_link n url links link :
    hops seeds n url -> page_links url links -> link ∈ links ->
    hops seeds (n + 1) link.

(** The states of the loop at the top of its body, from [st0] on. *)
Inductive reach (st0 : Crawl.t) : Crawl.t -> Prop :=
| reach_start : reach st0 st0
| reach_iter st st' :
    reach st0 st -> Crawl.to_visit st ≠ [] ->
    crawl_iter st = (st', None) -> reach st0 st'.

End FetchLoop.

(** [start_urls] of a site. *)
Definition start_urls (base_url : string) (paths : list string) : list string :=
  map (fun path => if String.eqb path "" then base_url else base_url ++ path)
      paths.

(** The loop variables before the first iteration. *)
Definition start_state (urls : list string) : Crawl.t :=
  Crawl.mk (map (fun url => (url, 0)) urls) ∅ ∅ [].

(** The executor calls of a fetch-mode crawl. *)
Definition fetch_calls (st : Crawl.t) : list Call :=
  map (fun '(url, _) => FetchCall url) (Crawl.fetched st).

(** [scrape_links]; [None] only if the fetch-mode loop were to outrun its
    budget.  The second component lists the executor calls made. *)
Definition scrape_links (site_id : string) : option (ScrapeResult.t * list Call) :=
  match (config ← load_site_config site_id;
         extractor ← get_extractor (SiteConfig.extractor config);
         Ok (config, extractor)) with
  | Raise e => Some (failed site_id links_op e, [])
  | Ok (config, extractor) =>
      match SiteConfig.links config with
      | None =>
          Some (failed site_id links_op "Site has no links configuration", [])
      | Some links =>
          let links_config := links_dict links (SiteConfig.baseUrl config) in
          match SiteConfig.mode config with
          | fetch =>
              let start_urls :=
                start_urls (SiteConfig.baseUrl config)
                  (LinksConfig.startUrls links) in
              let max_depth := LinksConfig.maxDepth links in
              let st := start_state start_urls in
              match crawl extractor links_config max_depth
                      (crawl_budget extractor links_config max_depth st) st with
              | None => None
              | Some (st, Some e) =>
                  Some (failed site_id links_op e, fetch_calls st)
              | Some (st, None) =>
                  Some (succeeded site_id links_op
                          (PyList.sorted (Crawl.all_links st)),
                        fetch_calls st)
              end
          | browser =>
              let start_url :=
                SiteConfig.baseUrl config
                  ++ match LinksConfig.startUrls links with
                     | path :: _ => path
                     | [] => ""
                     end in
              let wait_for := LinksConfig.waitFor links in
              let all_links : gset string := ∅ in
              let outcome :=
                page ← browser_page start_url wait_for [];
                _ ← setup_browser extractor page;
                links ← extract_links extractor (LivePage page) links_config;
                Ok (list_to_set links ∪ all_links) in
              Some (match outcome with
                    | Ok all_links =>
                        succeeded site_id links_op (PyList.sorted all_links)
                    | Raise e => failed site_id links_op e
                    end,
                    [BrowserCall start_url wait_for []])
          end
      end
  end.

(** [scrape_content], with the executor calls made. *)
Definition scrape_content (site_id path : string) : ScrapeResult.t * list Call :=
  match (config ← load_site_config site_id;
         extractor ← get_extractor (SiteConfig.extractor config);
         Ok (config, extractor)) with
  | Raise e => (failed site_id content_op e, [])
  | Ok (config, extractor) =>
      match SiteConfig.content config with
      | None =>
          (failed site_id content_op "Site has no content configuration", [])
      | Some content =>
          let url := SiteConfig.baseUrl config ++ path in
          let content_config := content_dict content (SiteConfig.baseUrl config) in
          let mode := match ContentConfig.mode content with
                      | Some m => m
                      | None => SiteConfig.mode config
                      end in
          let envelope (outcome : result (list string)) :=
            match outcome with
            | Ok data => succeeded site_id content_op data
            | Raise e => failed site_id content_op e
            end in
          match mode with
          | fetch =>
              (envelope (html ← fetch_html url;
                         extract_content extractor (Html html) content_config),
               [FetchCall url])
          | browser =>
              let permissions :=
                if decide (ContentConfig.method content = click_copy)
                then ["clipboard-read"; "clipboard-write"] else [] in
              (envelope (page ← browser_page url (ContentConfig.waitFor content)
                                  permissions;
                         _ ← setup_browser extractor page;
                         extract_content extractor (LivePage page) content_config),
               [BrowserCall url (ContentConfig.waitFor content) permissions])
          end
      end
  end.

(** *** Notions for describing the results

    Not in the source either.  They say when the data of a successful
    result is all there, and when the error of a failed one is the text of
    what ended the call. *)

(** The data of a links result is complete.  In fetch mode: the pages
    fetched are those within the depth limit, the strategy has read every
    one that was served, and the data lists the links it found on them.
    In browser mode: the data is the list the strategy read off the page. *)
Definition links_complete (site_id : string) (r : ScrapeResult.t)
    (calls : list Call) : Prop :=
  ∃ config extractor links,
    load_site_config site_id = Ok config
    ∧ get_extractor (SiteConfig.extractor config) = Ok extractor
    ∧ SiteConfig.links config = Some links
    ∧ let links_config := links_dict links (SiteConfig.baseUrl config) in
      match SiteConfig.mode config with
      | fetch =>
          let seeds :=
            start_urls (SiteConfig.baseUrl config) (LinksConfig.startUrls links) in
          (∀ url, FetchCall url ∈ calls
                  <-> ∃ n, 0 ≤ n ≤ LinksConfig.maxDepth links
                           ∧ hops extractor links_config seeds n url)
          ∧ (∀ url html,
               FetchCall url ∈ calls -> fetch_html url = Ok html ->
               ∃ found_links,
                 extract_links extractor (Html html) links_config
                 = Ok found_links)
          ∧ (∀ link, link ∈ ScrapeResult.data r
                     <-> ∃ url found_links,
                           FetchCall url ∈ calls
                           ∧ page_links extractor links_config url found_links
                           ∧ link ∈ found_links)
      | browser =>
          let start_url :=
            SiteConfig.baseUrl config
              ++ match LinksConfig.startUrls links with
                 | path :: _ => path
                 | [] => ""
                 end in
          ∃ page,
            browser_page start_url (LinksConfig.waitFor links) [] = Ok page
            ∧ extract_links extractor (LivePage page) links_config
              = Ok (ScrapeResult.data r)
      end.

(** [msg] is the text of what ended a links call that made [calls]: the
    exception of the first step to raise, or the missing sub-config. *)
Definition links_raised (site_id : string) (calls : list Call) (msg : string)
    : Prop :=
  match load_site_config site_id with
  | Raise e => msg = e
  | Ok config =>
      match get_extractor (SiteConfig.extractor config) with
      | Raise e => msg = e
      | Ok extractor =>
          match SiteConfig.links config with
          | None => msg = "Site has no links configuration"
          | Some links =>
              let links_config := links_dict links (SiteConfig.baseUrl config) in
              match SiteConfig.mode config with
              | fetch =>
                  ∃ url html,
                    FetchCall url ∈ calls ∧ fetch_html url = Ok html
                    ∧ extract_links extractor (Html html) links_config
                      = Raise msg
              | browser =>
                  let start_url :=
                    SiteConfig.baseUrl config
                      ++ match LinksConfig.startUrls links with
                         | path :: _ => path
                         | [] => ""
                         end in
                  match browser_page start_url (LinksConfig.waitFor links) [] with
                  | Raise e => msg = e
                  | Ok page =>
                      extract_links extractor (LivePage page) links_config
                      = Raise msg
                  end
              end
          end
      end
  end.

(** The page or markup a content call hands to the strategy, or the
    exception of the executor. *)
Definition content_input (config : SiteConfig.t) (content : ContentConfig.t)
    (path : string) : result page_or_html :=
  let url := SiteConfig.baseUrl config ++ path in
  match match ContentConfig.mode content with
        | Some m => m
        | None => SiteConfig.mode config
        end with
  | fetch => html ← fetch_html url; Ok (Html html)
  | browser =>
      let permissions :=
        if decide (ContentConfig.method content = click_copy)
        then ["clipboard-read"; "clipboard-write"] else [] in
      page ← browser_page url (ContentConfig.waitFor content) permissions;
      Ok (LivePage page)
  end.

(** The data of a content result is what the strategy returned for the
    page. *)
Definition content_complete (site_id path : string) (r : ScrapeResult.t)
    : Prop :=
  ∃ config extractor content input,
    load_site_config site_id = Ok config
    ∧ get_extractor (SiteConfig.extractor config) = Ok extractor
    ∧ SiteConfig.content config = Some content
    ∧ content_input config content path = Ok input
    ∧ extract_content extractor input
        (content_dict content (SiteConfig.baseUrl config))
      = Ok (ScrapeResult.data r).

(** [msg] is the text of what ended a content call. *)
Definition content_raised (site_id path msg : string) : Prop :=
  match load_site_config site_id with
  | Raise e => msg = e
  | Ok config =>
      match get_extractor (SiteConfig.extractor config) with
      | Raise e => msg = e
      | Ok extractor =>
          match SiteConfig.content config with
          | None => msg = "Site has no content configuration"
          | Some content =>
              match content_input config content path with
              | Raise e => msg = e
              | Ok input =>
                  extract_content extractor input
                    (content_dict content (SiteConfig.baseUrl config))
                  = Raise msg
              end
          end
      end
  end.

End Core.

(** ** A model of [urllib.parse.urlparse] *)

(** Modelled on CPython's [urlsplit], for the two components the code reads.
    Left out: the stripping of leading control characters and spaces, the
    removal of tab and newline characters, and the validation of bracketed
    and non-ASCII hosts.  On URLs of printable ASCII characters without
    brackets it yields the library's scheme and netloc. *)
Module Urllib.

Definition is_alpha (c : ascii) : bool :=
  let n := nat_of_ascii c in
  ((65 <=? n) && (n <=? 90) || (97 <=? n) && (n <=? 122))%nat.

Definition is_digit (c : ascii) : bool :=
  let n := nat_of_ascii c in ((48 <=? n) && (n <=? 57))%nat.

Definition is_scheme_char (c : ascii) : bool :=
  is_alpha c || is_digit c || Py.has_char c "+-.".

Definition lower (c : ascii) : ascii :=
  let n := nat_of_ascii c in
  if ((65 <=? n) && (n <=? 90))%nat then ascii_of_nat (n + 32) else c.

Fixpoint lower_str (s : string) : string :=
  match s with
  | EmptyString => EmptyString
  | String c s' => String (lower c) (lower_str s')
  end.

Fixpoint all_chars (p : ascii -> bool) (s : string) : bool :=
  match s with
  | EmptyString => true
  | String c s' => p c && all_chars p s'
  end.

(** [url[:i]] and [url[i+1:]] for [i = url.find(':')], if there is one. *)
Fixpoint cut_colon (url : string) : option (string * string) :=
  match url with
  | EmptyString => None
  | String c s' =>
      if Ascii.eqb c ":" then Some (EmptyString, s')
      else '(pre, post) ← cut_colon s'; Some (String c pre, post)
  end.

(** [_splitnetloc]: the text before the first of [/], [?] and [#]. *)
Fixpoint splitnetloc (s : string) : string :=
  match s with
  | EmptyString => EmptyString
  | String c s' =>
      if Py.has_char c "/?#" then EmptyString else String c (splitnetloc s')
  end.

Definition split_scheme (url : string) : string * string :=
  match cut_colon url with
  | Some (String c pre, post) =>
      if is_alpha c && all_chars is_scheme_char (String c pre)
      then (lower_str (String c pre), post) else (EmptyString, url)
  | _ => (EmptyString, url)
  end.

Definition urlparse (url : string) : result ParseResult :=
  let '(scheme, url) := split_scheme url in
  if Py.startswith url "//" then
    let netloc := splitnetloc (Py.drop 2 url) in
    if Py.has_char "[" netloc && negb (Py.has_char "]" netloc)
       || Py.has_char "]" netloc && negb (Py.has_char "[" netloc)
    then Raise "Invalid IPv6 URL"
    else Ok {| scheme := scheme; netloc := netloc |}
  else Ok {| scheme := scheme; netloc := EmptyString |}.

End Urllib.

(** ** The scenario site [docs-a] *)

Module DocsA.

Definition base : string := "https://docs-a.test".
Definition intro : string := "https://docs-a.test/guide/intro".

(** An anchor element pointing to [href]. *)
Definition anchor (href : string) : string :=
  "<a href=" ++ String Py.dquote href ++ String Py.dquote ">link</a>".

(** The page at the base URL: the three links of the scenario. *)
Definition root_page : string :=
  "<html><body>" ++ anchor "/guide/intro" ++ anchor "/blog"
    ++ anchor "https://other.test/guide/x" ++ "</body></html>".

Definition site (seeds : list string) (max_depth : Z) (extractor : string)
    (mode : Mode) (content : option ContentConfig.t) : SiteConfig.t :=
  SiteConfig.mk "docs-a" base mode extractor
    (Some (LinksConfig.mk seeds "/guide" None max_depth)) content.

(** A world with the one site [docs-a]; [join] stands for [urljoin] and
    [web] for the pages served. *)
Definition env (join : string -> string -> result string) (cfg : SiteConfig.t)
    (web : string -> result string)
    (browser : string -> option string -> list string -> result Page.t) : Env :=
  {| urlparse := Urllib.urlparse;
     urljoin := join;
     sites_json := Ok [("docs-a", Ok cfg)];
     fetch_html := web;
     browser_page := browser |}.

Definition no_browser (url : string) (wait_for : option string)
    (permissions : list string) : result Page.t :=
  Raise "browser unavailable".

(** Only the base page is served. *)
Definition web_root_only (url : string) : result string :=
  if String.eqb url base then Ok root_page else Raise "404 Not Found".

(** The intro page is served too and links to a further guide page. *)
Definition web_with_intro (url : string) : result string :=
  if String.eqb url base then Ok root_page
  else if String.eqb url intro then Ok (anchor "/guide/advanced")
  else Raise "404 Not Found".

(** The guide index is served under both spellings of its URL. *)
Definition guide : string := "https://docs-a.test/guide".
Definition guide_slash : string := "https://docs-a.test/guide/".

Definition web_guide (url : string) : result string :=
  if String.eqb url guide_slash || String.eqb url guide
  then Ok (anchor "/guide/") else Raise "404 Not Found".

(** No href of these pages is relative to the page, so [urljoin] is never
    reached; this stand-in raises if it were. *)
Definition no_join (base_url link : string) : result string :=
  Raise "urljoin unavailable".

(** A rendered page whose body holds one paragraph. *)
Definition hello_page : Page.t :=
  Page.mk (Ok ["https://docs-a.test/guide/intro"])
    (fun _ => Ok ())
    (fun _ => Ok [Element.mk (Ok "<p>Hello</p>") (Ok (Some "Hello"))])
    (fun _ => Ok ())
    (Ok "Hello").

Definition browser_hello (url : string) (wait_for : option string)
    (permissions : list string) : result Page.t :=
  Ok hello_page.

(** The site as the scenario configures it. *)
Definition links : LinksConfig.t := LinksConfig.mk [""] "/guide" None 1.
Definition links_config : LinksDict.t := LinksDict.mk [""] "/guide" None 1 base.
Definition scenario : SiteConfig.t := site [""] 1 "default" fetch None.

(** Worlds around the site: only the base page served; the intro page
    served as well; the guide index as seed, with a trailing slash; a
    content override to the browser; the Terraform strategy in fetch mode. *)
Definition world_root : Env := env no_join scenario web_root_only no_browser.
Definition world_intro : Env := env no_join scenario web_with_intro no_browser.

Definition guide_site : SiteConfig.t := site ["/guide/"] 1 "default" fetch None.
Definition world_guide : Env := env no_join guide_site web_guide no_browser.

Definition render_content : ContentConfig.t :=
  ContentConfig.mk (Some browser) None "body" inner_html.
Definition render_site : SiteConfig.t :=
  site [""] 1 "default" fetch (Some render_content).
Definition world_render : Env :=
  env no_join render_site web_root_only browser_hello.

Definition fetch_content : ContentConfig.t :=
  ContentConfig.mk None None "body" inner_html.
Definition terraform_site : SiteConfig.t :=
  site [""] 1 "terraform" fetch (Some fetch_content).
Definition world_terraform : Env :=
  env no_join terraform_site web_root_only no_browser.

End DocsA.

(** ** More of the package *)

(** *** [core.py]: [list_sites]; [fetchers.py]: [fetch_all_html] *)

Section Listing.
Context `{Env}.

Definition list_sites : result (list string) :=
  data ← sites_json;
  Ok (map fst data).

End Listing.

Section Fetchers.

(** [fetch_html] with its [timeout] argument, a float, spelled out; the
    environment's [fetch_html] is the call that leaves it at the default. *)
Variable Timeout : Type.
Variable fetch_html_timeout : string -> Timeout -> result string.

(** [asyncio.Semaphore(value)]: the permits it starts with. *)
Definition Semaphore (value : Z) : result Z :=
  if decide (value < 0) then Raise "Semaphore initial value must be >= 0"
  else Ok value.

(** [fetch_one] once it holds the semaphore. *)
Definition fetch_one (timeout : Timeout) (url : string) : string * string :=
  match fetch_html_timeout url timeout with
  | Ok html => (url, html)
  | Raise _ => (url, "")
  end.

(** [fetch_all_html]; [None] when the call never returns, which is so
    when there are tasks and no permit for any of them to take.  With a
    permit every task gets its turn: the semaphore then bounds how many
    requests are in flight, not what they return. *)
Definition fetch_all_html (urls : list string) (timeout : Timeout)
    (concurrency : Z) : option (result (gmap string string)) :=
  match Semaphore concurrency with
  | Raise e => Some (Raise e)
  | Ok permits =>
      if decide (permits = 0 ∧ urls ≠ []) then None
      else
        Some (Ok (fold_left (fun results '(url, html) => <[url:=html]> results)
                    (map (fetch_one timeout) urls) ∅))
  end.

End Fetchers.

Section Failures.
Context `{Env}.

(** The same world, except that an empty page is served wherever the
    fetch raises. *)
Definition empty_on_failure : Env :=
  {| urlparse := urlparse;
     urljoin := urljoin;
     sites_json := sites_json;
     fetch_html := fun url =>
       match fetch_html url with
       | Ok html => Ok html
       | Raise _ => Ok ""
       end;
     browser_page := browser_page |}.

End Failures.

(** *** [__main__.py]: [_print_result] *)

(** What the function writes to the two streams, one element per call of
    [print], and the exit code it returns.  [json_dumps] stands for
    [json.dumps(result.model_dump(), indent=2)]. *)
Module Printed.
Record t := mk {
  stdout : list string;
  stderr : list string;
  code : Z }.
End Printed.


(** *** [extract.py] *)

Module Extract.

Definition ExtractFn : Type := Page.t -> string -> result (list string).

(** [terraform_registry] first tries to dismiss the consent banner,
    swallowing every exception. *)
Definition terraform_registry : ExtractFn := fun page selector =>
  _ ← Page.wait_for_selector page (Some selector);
  elements ← Page.query_selector_all page selector;
  mapM (fun el =>
          html ← Element.inner_html el;
          Ok (if String.eqb html "" then "" else PyStr.strip html)) elements.

Definition click_copy : ExtractFn := fun page selector =>
  _ ← Page.click page selector;
  content ← Page.read_clipboard page;
  Ok (if String.eqb content "" then [] else [content]).

Definition text_content : ExtractFn := fun page selector =>
  elements ← Page.query_selector_all page selector;
  mapM (fun el =>
          text ← Element.text_content el;
          Ok (match text with
              | Some t => if String.eqb t "" then "" else PyStr.strip t
              | None => ""
              end)) elements.

Definition inner_html : ExtractFn := fun page selector =>
  elements ← Page.query_selector_all page selector;
  mapM (fun el =>
          html ← Element.inner_html el;
          Ok (if String.eqb html "" then "" else PyStr.strip html)) elements.

End Extract.

(** *** [core.py]: the legacy [scrape] *)

Module Legacy.

(** [ScrapeJob.method]: an [ExtractMethod] or one of the two Terraform
    literals. *)
Inductive Method :=
| Std (m : ExtractMethod)
| terraform_registry
| terraform_links.

Record ScrapeJob := {
  name : string;
  url : string;
  selector : string;
  method : Method;
  timeout : Z;
  wait_until : string;
  debug_html_path : option string;
  debug_screenshot_path : option string }.

(** [LegacyScrapeResult]; an entry is a parsed dict (of type [D]) or a
    raw string. *)
Record LegacyScrapeResult (D : Type) := {
  job_name : string;
  result_url : string;
  success : bool;
  entries : list (D + string);
  error : option string }.
Arguments job_name {D}.
Arguments result_url {D}.
Arguments success {D}.
Arguments entries {D}.
Arguments error {D}.

(** The dict [EXTRACTORS] of [extract.py], read at a job's method; it has
    no entry for [custom] and none for [terraform_links]. *)
Definition EXTRACTORS (m : Method) : option Extract.ExtractFn :=
  match m with
  | Std click_copy => Some Extract.click_copy
  | Std text_content => Some Extract.text_content
  | Std inner_html => Some Extract.inner_html
  | terraform_registry => Some Extract.terraform_registry
  | Std custom | terraform_links => None
  end.

(** [str] of the method, as it appears in the [KeyError]. *)
Definition method_str (m : Method) : string :=
  match m with
  | Std click_copy => "click_copy"
  | Std text_content => "text_content"
  | Std inner_html => "inner_html"
  | Std custom => "custom"
  | terraform_registry => "terraform_registry"
  | terraform_links => "terraform_links"
  end.

Section Scrape.
Context {D : Type}.

(** The browser of the legacy path: launching it and opening a page with
    the given permissions may raise; [goto] on that page (URL, wait-until
    event, timeout) then yields the page as loaded, or raises. *)
Variable new_page :
  list string -> result (string -> string -> Z -> result Page.t).

Definition failed (job : ScrapeJob) (e : string) : LegacyScrapeResult D :=
  {| job_name := name job; result_url := url job; success := false;
     entries := []; error := Some e |}.

(** [scrape]; [Raise] is an exception that leaves the function.  The
    debug capture writes files only and is left out. *)
Definition scrape (job : ScrapeJob) (parse_fn : option (string -> result D))
    (extract_fn : option Extract.ExtractFn) : result (LegacyScrapeResult D) :=
  extract_fn ←
    match extract_fn with
    | Some f => Ok f
    | None =>
        match method job with
        | Std custom =>
            Raise ("Job '" ++ name job
                     ++ "' has method='custom' but no extract_fn provided")
        | m =>
            match EXTRACTORS m with
            | Some f => Ok f
            | None => Raise ("'" ++ method_str m ++ "'")
            end
        end
    end;
  let permissions :=
    match method job with
    | Std click_copy => ["clipboard-read"; "clipboard-write"]
    | _ => []
    end in
  goto ← new_page permissions;
  let outcome :=
    page ← goto (url job) (wait_until job) (timeout job);
    _ ← match method job with
        | Std custom | terraform_registry | terraform_links => Ok ()
        | _ => Page.wait_for_selector page (Some (selector job))
        end;
    raw_entries ← extract_fn page (selector job);
    match parse_fn with
    | Some parse =>
        mapM (fun r => d ← parse r; Ok (inl d))
          (filter (fun r => r ≠ "") raw_entries)
    | None => Ok (inr <$> raw_entries)
    end in
  Ok match outcome with
     | Ok [] => failed job "No entries found"
     | Ok entries =>
         {| job_name := name job; result_url := url job; success := true;
            entries := entries; error := None |}
     | Raise e => failed job e
     end.

End Scrape.

End Legacy.

(** *** More worlds around the scenario site *)

Module DocsB.

(** No start URLs. *)
Definition idle_site : SiteConfig.t :=
  DocsA.site [] 1 "default" fetch None.
Definition world_idle : Env :=
  DocsA.env DocsA.no_join idle_site DocsA.web_root_only DocsA.no_browser.

(** Browser mode, with two start URLs. *)
Definition browser_links : LinksConfig.t :=
  LinksConfig.mk ["/guide"; "/api"] "/guide" None 3.
Definition browser_site : SiteConfig.t :=
  SiteConfig.mk "docs-a" DocsA.base browser "default" (Some browser_links) None.
Definition world_browser : Env :=
  DocsA.env DocsA.no_join browser_site DocsA.web_root_only DocsA.browser_hello.

(** Fetch mode for content. *)
Definition content_site : SiteConfig.t :=
  DocsA.site [""] 1 "modal" fetch (Some DocsA.fetch_content).
Definition world_content : Env :=
  DocsA.env DocsA.no_join content_site DocsA.web_root_only DocsA.no_browser.

(** A legacy job on a browser that always shows [DocsA.hello_page]. *)
Definition hello_job : Legacy.ScrapeJob :=
  {| Legacy.name := "hello"; Legacy.url := "https://docs-a.test/guide/intro";
     Legacy.selector := "p"; Legacy.method := Legacy.Std inner_html;
     Legacy.timeout := 30000; Legacy.wait_until := "networkidle";
     Legacy.debug_html_path := None; Legacy.debug_screenshot_path := None |}.

Definition new_hello_page (permissions : list string)
    : result (string -> string -> Z -> result Page.t) :=
  Ok (fun _ _ _ => Ok DocsA.hello_page).

(** Every request runs into its timeout, with an exception that has no
    text. *)
Definition web_timeout (url : string) : result string := Raise "".
Definition world_timeout : Env :=
  DocsA.env DocsA.no_join content_site web_timeout DocsA.no_browser.

End DocsB.

(** * Properties *)

Section StringFacts.

Lemma has_char_split_head ch s : Py.has_char ch (Py.split_head ch s) = false.
Proof.
  induction s as [|c s IH]; simpl; [done|].
  destruct (Ascii.eqb c ch) eqn:E; simpl; [done|]. by rewrite E.
Qed.

Lemma has_char_split_head_other ch sep s :
  Py.has_char ch s = false -> Py.has_char ch (Py.split_head sep s) = false.
Proof.
  induction s as [|c s IH]; simpl; [done|].
  intros [H1 H2]%orb_false_iff.
  destruct (Ascii.eqb c sep); simpl; [done|]. rewrite H1. by apply IH.
Qed.

Lemma split_head_absent sep s :
  Py.has_char sep s = false -> Py.split_head sep s = s.
Proof.
  induction s as [|c s IH]; simpl; [done|].
  intros [H1 H2]%orb_false_iff. rewrite H1. f_equal. by apply IH.
Qed.

Lemma has_char_rstrip ch c s :
  Py.has_char ch s = false -> Py.has_char ch (Py.rstrip c s) = false.
Proof.
  induction s as [|a s IH]; simpl; [done|].
  intros [H1 H2]%orb_false_iff. specialize (IH H2).
  destruct (Py.rstrip c s) eqn:E.
  - destruct (Ascii.eqb a c); simpl; [done|]. by rewrite H1.
  - simpl in *. by rewrite H1, IH.
Qed.

Lemma rstrip_idem ch s : Py.rstrip ch (Py.rstrip ch s) = Py.rstrip ch s.
Proof.
  induction s as [|a s IH]; simpl; [done|].
  destruct (Py.rstrip ch s) as [|b r] eqn:E.
  - destruct (Ascii.eqb a ch) eqn:Ea; simpl; [done|]. by rewrite Ea.
  - change (Py.rstrip ch (String a (String b r))) with
      (match Py.rstrip ch (String b r) with
       | EmptyString => if Ascii.eqb a ch then EmptyString else String a EmptyString
       | r' => String a r'
       end).
    by rewrite IH.
Qed.

Lemma string_app_cons c (a b : string) : String c a ++ b = String c (a ++ b).
Proof. reflexivity. Qed.

Lemma string_app_nil_l (b : string) : "" ++ b = b.
Proof. reflexivity. Qed.

Lemma string_app_nil_r (a : string) : a ++ "" = a.
Proof. induction a as [|c a IH]; [done|]. by rewrite string_app_cons, IH. Qed.

Lemma string_app_assoc (a b c : string) : a ++ b ++ c = (a ++ b) ++ c.
Proof.
  induction a as [|x a IH]; [done|]. by rewrite !string_app_cons, IH.
Qed.

Lemma split_head_app sep a b :
  Py.has_char sep a = false ->
  Py.split_head sep (a ++ b) = a ++ Py.split_head sep b.
Proof.
  induction a as [|c a IH]; [done|].
  rewrite !string_app_cons. simpl.
  intros [H1 H2]%orb_false_iff. rewrite H1. f_equal. by apply IH.
Qed.

Lemma has_char_app ch a b :
  Py.has_char ch (a ++ b) = Py.has_char ch a || Py.has_char ch b.
Proof.
  induction a as [|c a IH]; [done|].
  rewrite string_app_cons. simpl. by rewrite IH, orb_assoc.
Qed.

Lemma rstrip_snoc ch s :
  Py.rstrip ch (s ++ String ch "") = Py.rstrip ch s.
Proof.
  induction s as [|a s IH].
  - rewrite string_app_nil_l. simpl. by rewrite Ascii.eqb_refl.
  - rewrite string_app_cons. simpl. by rewrite IH.
Qed.

Lemma clean_url_of_stem stem slash query fragment :
  Py.has_char "?" stem = false ->
  Py.has_char "#" stem = false ->
  _clean_url (url_with stem slash query fragment) = Py.rstrip "/" stem.
Proof.
  intros Hq Hf. unfold _clean_url, url_with.
  set (sl := if slash then "/" else "").
  assert (Hsl : Py.rstrip "/" (stem ++ sl) = Py.rstrip "/" stem).
  { subst sl. destruct slash; [apply rstrip_snoc|].
    by rewrite string_app_nil_r. }
  assert (Hq' : Py.has_char "?" (stem ++ sl) = false).
  { rewrite has_char_app, Hq. by destruct slash. }
  assert (Hf' : Py.has_char "#" (stem ++ sl) = false).
  { rewrite has_char_app, Hf. by destruct slash. }
  rewrite <- Hsl. f_equal.
  rewrite string_app_assoc. generalize dependent (stem ++ sl).
  intros p _ Hq' Hf'.
  destruct query as [q|], fragment as [f|];
    rewrite ?string_app_nil_r, ?string_app_cons, ?string_app_nil_l.
  all: rewrite ?(split_head_app "?") by done; simpl;
    rewrite ?string_app_nil_r, ?(split_head_app "#") by done; simpl;
    rewrite ?string_app_nil_r, ?split_head_absent by done; try done.
  rewrite (split_head_absent "?") by done. by apply split_head_absent.
Qed.

End StringFacts.

(** C8. [_clean_url] is idempotent, and two URLs that share the stem and
    differ only in trailing slash, query string or fragment are cleaned to
    the same canonical form. *)
Theorem clean_url_idempotent_canonical :
  (forall u, _clean_url (_clean_url u) = _clean_url u) /\
  (forall stem slash1 query1 fragment1 slash2 query2 fragment2,
      Py.has_char "?" stem = false ->
      Py.has_char "#" stem = false ->
      _clean_url (url_with stem slash1 query1 fragment1)
      = _clean_url (url_with stem slash2 query2 fragment2)).
Proof.
  split.
  - intros u. unfold _clean_url.
    set (v := Py.split_head "#" (Py.split_head "?" u)).
    assert (Hq : Py.has_char "?" (Py.rstrip "/" v) = false).
    { apply has_char_rstrip. subst v.
      apply has_char_split_head_other, has_char_split_head. }
    assert (Hf : Py.has_char "#" (Py.rstrip "/" v) = false).
    { apply has_char_rstrip. subst v. apply has_char_split_head. }
    rewrite (split_head_absent "?") by done.
    rewrite (split_head_absent "#") by done.
    apply rstrip_idem.
  - intros. by rewrite !clean_url_of_stem.
Qed.

Lemma clean_url_idempotent_canonical_witness :
  _clean_url (url_with "https://docs-a.test/guide" true (Some "page=2") None)
  = _clean_url (url_with "https://docs-a.test/guide" false None (Some "top")).
Proof.
  apply (proj2 clean_url_idempotent_canonical); reflexivity.
Defined.


(** ** The fetch-mode loop *)

Local Close Scope string_scope.

Section CrawlFacts.
Context `{Env}.
Variable extractor : Extractor.
Variable links_config : LinksDict.t.
Variable max_depth : Z.

Abbreviation pop_batch := (pop_batch max_depth).
Abbreviation add_link := (add_link max_depth).
Abbreviation process_batch := (process_batch extractor links_config max_depth).
Abbreviation crawl_iter := (crawl_iter extractor links_config max_depth).
Abbreviation crawl := (crawl extractor links_config max_depth).
Abbreviation page_links := (page_links extractor links_config).
Abbreviation weight := (weight extractor links_config).
Abbreviation entry_weight := (entry_weight extractor links_config max_depth).
Abbreviation reach := (reach extractor links_config max_depth).
Abbreviation hops := (hops extractor links_config).

Abbreviation children := (children max_depth).
Abbreviation found := (found extractor links_config).
Abbreviation extracted := (extracted extractor links_config).
Abbreviation tagged batch :=
  (PyList.zip batch (map (fun '(url, _) => fetch_html url) batch)).

Lemma fold_add_link depth links st :
  fold_left (add_link depth) links st
  = Crawl.mk (Crawl.to_visit st ++ children depth (Crawl.visited st) links)
      (Crawl.visited st) (list_to_set links ∪ Crawl.all_links st)
      (Crawl.fetched st).
Proof.
  revert st. induction links as [|l links IH]; intros st.
  - destruct st. simpl. unfold children. simpl. rewrite app_nil_r.
    f_equal. set_solver.
  - simpl. rewrite IH. unfold children, add_link. rewrite filter_cons.
    destruct (decide (depth < max_depth ∧ l ∉ Crawl.visited st)); simpl.
    + rewrite <- app_assoc. simpl. f_equal. set_solver.
    + f_equal. set_solver.
Qed.

Lemma children_at_limit depth visited links :
  max_depth ≤ depth -> children depth visited links = [].
Proof.
  intros Hd. unfold children. induction links as [|l links IH]; [done|].
  rewrite filter_cons. destruct (decide _) as [[? _]|]; [lia|done].
Qed.

Lemma elem_of_children l d depth visited links :
  (l, d) ∈ children depth visited links
  <-> d = depth + 1 ∧ depth < max_depth ∧ l ∈ links ∧ l ∉ visited.
Proof.
  unfold children. rewrite list_elem_of_fmap. split.
  - intros (x & [= -> ->] & [[? ?] ?]%list_elem_of_filter). done.
  - intros (-> & ? & ? & ?). exists l. split; [done|].
    apply list_elem_of_filter. done.
Qed.

Lemma entry_weight_pos x : (1 ≤ entry_weight x)%nat.
Proof. unfold entry_weight. destruct (Z.to_nat _); simpl; lia. Qed.

(** What the inner [while] loop does to the queue, the visited set and
    the batch. *)
Lemma pop_batch_spec to_visit visited batch to_visit' visited' batch' :
  pop_batch to_visit visited batch = (to_visit', visited', batch') ->
  ∃ popped taken,
    to_visit = popped ++ to_visit' ∧ batch' = batch ++ taken
    ∧ visited' = list_to_set taken.*1 ∪ visited
    ∧ NoDup taken.*1
    ∧ (∀ u, u ∈ taken.*1 -> u ∉ visited)
    ∧ (∀ x, x ∈ taken -> x ∈ popped)
    ∧ (∀ u d, (u, d) ∈ taken -> d ≤ max_depth)
    ∧ (∀ u d, (u, d) ∈ popped -> d ≤ max_depth -> u ∈ visited')
    ∧ (to_visit ≠ [] -> (length batch < 10)%nat -> popped ≠ [])
    ∧ (sum_list_with (fun x => pred (entry_weight x)) taken + length popped
       ≤ sum_list_with entry_weight popped)%nat.
Proof.
  revert visited batch.
  induction to_visit as [|[url depth] rest IH]; intros visited batch; simpl.
  - intros [= <- <- <-]. exists [], [].
    split_and!; rewrite ?app_nil_r; try done; try set_solver. constructor.
  - destruct (decide (length batch < 10)%nat) as [Hlen|Hlen].
    + destruct (decide ((url ∉ visited) ∧ depth ≤ max_depth)) as [[Hv Hd]|Hrej].
      * intros (popped & taken & -> & -> & -> & Hnd & Hfresh & Hsub & Hdep & Hvis & _ & Hw)%IH.
        pose proof (entry_weight_pos (url, depth)).
        exists ((url, depth) :: popped), ((url, depth) :: taken).
        split_and!; try done; [..|simpl; lia].
        -- by rewrite <- app_assoc.
        -- simpl. set_solver.
        -- simpl. constructor; [|done]. intros Hin. apply Hfresh in Hin. set_solver.
        -- simpl. intros u [->|Hu]%elem_of_cons; [done|].
           apply Hfresh in Hu. set_solver.
        -- intros x [->|Hx]%elem_of_cons; [left|right; auto].
        -- intros u d [[= -> ->]|Hx]%elem_of_cons; eauto.
        -- intros u d [[= -> ->]|Hx]%elem_of_cons Hle; [set_solver|eauto].
      * intros (popped & taken & -> & -> & -> & Hnd & Hfresh & Hsub & Hdep & Hvis & _ & Hw)%IH.
        pose proof (entry_weight_pos (url, depth)).
        exists ((url, depth) :: popped), taken.
        split_and!; try done; [..|simpl; lia].
        -- intros x Hx. right. auto.
        -- intros u d [[= -> ->]|Hx]%elem_of_cons Hle; [|eauto].
           destruct (decide (url ∈ visited)); [set_solver|].
           exfalso. apply Hrej. done.
    + intros [= <- <- <-]. exists [], [].
      split_and!; rewrite ?app_nil_r; try done; try set_solver. constructor.
Qed.

Lemma page_links_found url links : page_links url links -> found url = links.
Proof. intros (html & Hf & He). unfold found. by rewrite Hf, He. Qed.

Lemma found_page_links url link :
  link ∈ found url -> ∃ links, page_links url links ∧ link ∈ links.
Proof.
  unfold found, page_links.
  destruct (fetch_html url) as [html|] eqn:Hf; [|by intros ?%elem_of_nil].
  destruct (extract_links _ _ _) as [links|] eqn:He; [|by intros ?%elem_of_nil].
  eauto.
Qed.

Lemma process_batch_ok batch st st' :
  process_batch (tagged batch) st = (st', None) ->
  st' = Crawl.mk
          (Crawl.to_visit st
             ++ (batch ≫= fun x => children x.2 (Crawl.visited st) (found x.1)))
          (Crawl.visited st)
          (list_to_set (batch.*1 ≫= found) ∪ Crawl.all_links st)
          (Crawl.fetched st)
  ∧ extracted batch.
Proof.
  revert st. induction batch as [|[u d] batch IH]; intros st; simpl.
  - intros [= <-]. split; [|by intros ??? ?%elem_of_nil].
    destruct st; simpl. rewrite app_nil_r. f_equal. set_solver.
  - assert (Hfound : ∀ html links, fetch_html u = Ok html ->
              extract_links extractor (Html html) links_config = Ok links ->
              found u = links).
    { intros html links Hf He. apply page_links_found. by exists html. }
    unfold extracted.
    destruct (fetch_html u) as [html|msg] eqn:Hf.
    + destruct (extract_links _ _ _) as [links|] eqn:He; [|done].
      rewrite (Hfound html links) by done.
      intros [-> Hex]%IH. rewrite fold_add_link. simpl. split.
      * rewrite <- app_assoc. f_equal. rewrite list_to_set_app_L. set_solver.
      * intros u' d' html' [[= -> ->]|Hin]%elem_of_cons Hf'; [|eauto].
        rewrite Hf in Hf'. injection Hf' as <-. eauto.
    + assert (found u = []) as -> by (unfold found; by rewrite Hf).
      intros [-> Hex]%IH. simpl. split; [f_equal|].
      intros u' d' html' [[= -> ->]|Hin]%elem_of_cons Hf'; [congruence|eauto].
Qed.

Lemma process_batch_raise batch st st' msg :
  process_batch (tagged batch) st = (st', Some msg) ->
  Crawl.fetched st' = Crawl.fetched st
  ∧ ∃ u d html, (u, d) ∈ batch ∧ fetch_html u = Ok html
      ∧ extract_links extractor (Html html) links_config = Raise msg.
Proof.
  revert st. induction batch as [|[u d] batch IH]; intros st; simpl; [done|].
  destruct (fetch_html u) as [html|e] eqn:Hf.
  - destruct (extract_links _ _ _) as [links|e] eqn:He.
    + intros [Hfe (u' & d' & html' & Hin & ?)]%IH. rewrite fold_add_link in Hfe.
      split; [done|]. exists u', d', html'. split; [by right|done].
    + intros [= <- <-]. split; [done|]. exists u, d, html.
      split; [by left|done].
  - intros [Hfe (u' & d' & html' & Hin & ?)]%IH.
    split; [done|]. exists u', d', html'. split; [by right|done].
Qed.

(** One successful pass through the loop body, spelled out. *)
Lemma crawl_iter_ok st st' :
  crawl_iter st = (st', None) ->
  ∃ popped taken rest,
    Crawl.to_visit st = popped ++ rest
    ∧ st' = Crawl.mk
              (rest ++ (taken ≫= fun x =>
                          children x.2 (list_to_set taken.*1 ∪ Crawl.visited st)
                            (found x.1)))
              (list_to_set taken.*1 ∪ Crawl.visited st)
              (list_to_set (taken.*1 ≫= found) ∪ Crawl.all_links st)
              (Crawl.fetched st ++ taken)
    ∧ NoDup taken.*1
    ∧ (∀ u, u ∈ taken.*1 -> u ∉ Crawl.visited st)
    ∧ (∀ x, x ∈ taken -> x ∈ popped)
    ∧ (∀ u d, (u, d) ∈ taken -> d ≤ max_depth)
    ∧ (∀ u d, (u, d) ∈ popped -> d ≤ max_depth ->
         u ∈ list_to_set taken.*1 ∪ Crawl.visited st)
    ∧ (Crawl.to_visit st ≠ [] -> popped ≠ [])
    ∧ (sum_list_with (fun x => pred (entry_weight x)) taken + length popped
       ≤ sum_list_with entry_weight popped)%nat
    ∧ extracted taken.
Proof.
  unfold crawl_iter.
  destruct (pop_batch (Crawl.to_visit st) (Crawl.visited st) [])
    as [[rest visited'] batch] eqn:Hpop.
  apply pop_batch_spec in Hpop
    as (popped & taken & Htv & -> & -> & Hnd & Hfresh & Hsub & Hdep & Hvis & Hne & Hw).
  simpl. intros Hproc. exists popped, taken, rest.
  assert (Hst : st' = Crawl.mk
              (rest ++ (taken ≫= fun x =>
                          children x.2 (list_to_set taken.*1 ∪ Crawl.visited st)
                            (found x.1)))
              (list_to_set taken.*1 ∪ Crawl.visited st)
              (list_to_set (taken.*1 ≫= found) ∪ Crawl.all_links st)
              (Crawl.fetched st ++ taken)
            ∧ extracted taken).
  { destruct taken as [|x taken].
    - injection Hproc as <-. simpl. rewrite !app_nil_r.
      split; [f_equal; set_solver|by intros ??? ?%elem_of_nil].
    - apply process_batch_ok in Hproc as [-> ?]. done. }
  destruct Hst as [-> Hex]. split_and!; try done.
  intros Hne'. apply Hne; [done|simpl; lia].
Qed.

Lemma crawl_iter_raise st st' msg :
  crawl_iter st = (st', Some msg) ->
  (∃ taken, Crawl.fetched st' = Crawl.fetched st ++ taken
            ∧ NoDup taken.*1 ∧ (∀ u, u ∈ taken.*1 -> u ∉ Crawl.visited st))
  ∧ ∃ u html, fetch_html u = Ok html
      ∧ extract_links extractor (Html html) links_config = Raise msg.
Proof.
  unfold crawl_iter.
  destruct (pop_batch (Crawl.to_visit st) (Crawl.visited st) [])
    as [[rest visited'] batch] eqn:Hpop.
  apply pop_batch_spec in Hpop
    as (popped & taken & Htv & -> & -> & Hnd & Hfresh & _).
  simpl. destruct taken as [|x taken]; [done|].
  intros [Hfe (u & d & html & _ & ? & ?)]%process_batch_raise.
  split; [|eauto]. exists (x :: taken). done.
Qed.

(** A pass that finds one fresh entry on the queue. *)
Lemma crawl_iter_single st u d :
  Crawl.to_visit st = [(u, d)] -> u ∉ Crawl.visited st -> d ≤ max_depth ->
  let st1 := Crawl.mk [] ({[u]} ∪ Crawl.visited st) (Crawl.all_links st)
               (Crawl.fetched st ++ [(u, d)]) in
  crawl_iter st
  = match fetch_html u with
    | Raise _ => (st1, None)
    | Ok html =>
        match extract_links extractor (Html html) links_config with
        | Raise msg => (st1, Some msg)
        | Ok links => (fold_left (add_link d) links st1, None)
        end
    end.
Proof.
  intros Htv Hu Hd. unfold crawl_iter. rewrite Htv. simpl.
  destruct (decide (0 < 10)%nat); [|lia].
  destruct (decide ((u ∉ Crawl.visited st) ∧ d ≤ max_depth)) as [_|[]]; [|done].
  simpl. destruct (fetch_html u) as [html|]; [|done].
  by destruct (extract_links _ _ _).
Qed.

(** *** Termination *)

Lemma children_weight u d visited :
  (sum_list_with entry_weight (children d visited (found u))
   ≤ pred (entry_weight (u, d)))%nat.
Proof.
  destruct (decide (d < max_depth)) as [Hd|Hd].
  - unfold entry_weight at 2. simpl.
    replace (Z.to_nat (max_depth - d)) with (S (Z.to_nat (max_depth - (d + 1))))
      by lia.
    simpl. generalize (found u). intros links. unfold children.
    induction links as [|l links IH]; [simpl; lia|].
    change (sum_list_with ?f (l :: links))
      with (f l + sum_list_with f links)%nat.
    rewrite filter_cons. destruct (decide _); [|lia].
    rewrite fmap_cons.
    change (sum_list_with ?f (?x :: ?k)) with (f x + sum_list_with f k)%nat.
    change (entry_weight (l, d + 1))
      with (weight (Z.to_nat (max_depth - (d + 1))) l).
    lia.
  - rewrite children_at_limit by lia. simpl. lia.
Qed.

Lemma crawl_iter_decreases st st' :
  crawl_iter st = (st', None) -> Crawl.to_visit st ≠ [] ->
  (sum_list_with entry_weight (Crawl.to_visit st')
   < sum_list_with entry_weight (Crawl.to_visit st))%nat.
Proof.
  intros (popped & taken & rest & -> & -> & _ & _ & _ & _ & _ & Hne & Hw & _)%crawl_iter_ok
    Hnil.
  specialize (Hne Hnil). simpl. rewrite !sum_list_with_app.
  assert (sum_list_with entry_weight
            (taken ≫= fun x => children x.2
                       (list_to_set taken.*1 ∪ Crawl.visited st) (found x.1))
          ≤ sum_list_with (fun x => pred (entry_weight x)) taken)%nat as Hc.
  { generalize (list_to_set taken.*1 ∪ Crawl.visited st). intros vis.
    clear. induction taken as [|[u d] taken IH]; [simpl; lia|].
    rewrite bind_cons, sum_list_with_app.
    change (sum_list_with ?f ((u, d) :: taken))
      with (f (u, d) + sum_list_with f taken)%nat.
    pose proof (children_weight u d vis). simpl in *. lia. }
  destruct popped; [done|]. simpl in *. lia.
Qed.

Lemma crawl_enough fuel st :
  (sum_list_with entry_weight (Crawl.to_visit st) < fuel)%nat ->
  ∃ r, crawl fuel st = Some r.
Proof.
  revert st. induction fuel as [|fuel IH]; intros st Hlt; [lia|].
  simpl. destruct (Crawl.to_visit st) as [|x tv] eqn:Htv; [eauto|].
  destruct (crawl_iter st) as [st' [e|]] eqn:Hit; [eauto|].
  apply IH. apply crawl_iter_decreases in Hit; [|by rewrite Htv].
  rewrite Htv in Hit. lia.
Qed.

(** The budget [scrape_links] grants the loop is never exhausted. *)
Lemma crawl_returns st :
  ∃ r, crawl (crawl_budget extractor links_config max_depth st) st = Some r.
Proof. apply crawl_enough. unfold crawl_budget. lia. Qed.

Lemma crawl_fuel_irrelevant fuel1 fuel2 st r1 r2 :
  crawl fuel1 st = Some r1 -> crawl fuel2 st = Some r2 -> r1 = r2.
Proof.
  revert fuel2 st. induction fuel1 as [|fuel1 IH]; intros fuel2 st; simpl.
  - destruct fuel2; simpl; destruct (Crawl.to_visit st); congruence.
  - destruct fuel2; simpl.
    + destruct (Crawl.to_visit st); [congruence|]. done.
    + destruct (Crawl.to_visit st); [congruence|].
      destruct (crawl_iter st) as [st' [e|]]; [congruence|]. apply IH.
Qed.

(** A finished loop went through reachable states only; it stopped on an
    empty queue or on the exception of its last pass. *)
Lemma crawl_reach fuel st stf outcome :
  crawl fuel st = Some (stf, outcome) ->
  match outcome with
  | None => reach st stf ∧ Crawl.to_visit stf = []
  | Some msg =>
      ∃ stl, reach st stl ∧ Crawl.to_visit stl ≠ []
             ∧ crawl_iter stl = (stf, Some msg)
  end.
Proof.
  assert (Hgen : ∀ st0 st, reach st0 st -> crawl fuel st = Some (stf, outcome) ->
    match outcome with
    | None => reach st0 stf ∧ Crawl.to_visit stf = []
    | Some msg =>
        ∃ stl, reach st0 stl ∧ Crawl.to_visit stl ≠ []
               ∧ crawl_iter stl = (stf, Some msg)
    end).
  { clear st. induction fuel as [|fuel IH]; intros st0 st Hr; simpl.
    - destruct (Crawl.to_visit st) eqn:Htv; [|done].
      intros [= <- <-]. done.
    - destruct (Crawl.to_visit st) eqn:Htv.
      { intros [= <- <-]. done. }
      destruct (crawl_iter st) as [st' [e|]] eqn:Hit.
      + intros [= <- <-]. exists st. split_and!; [done|by rewrite Htv|done].
      + apply IH. eapply reach_iter; [done|by rewrite Htv|done]. }
  apply Hgen. constructor.
Qed.

(** *** Invariants of the loop *)

Variable seeds : list string.

Lemma found_hops n u l : hops seeds n u -> l ∈ found u -> hops seeds (n + 1) l.
Proof.
  intros Hn (links & Hp & Hl)%found_page_links. by eapply hops_link.
Qed.

Lemma reach_invariant st :
  reach (start_state seeds) st ->
  (∀ u d, (u, d) ∈ Crawl.to_visit st ->
     0 ≤ d ∧ hops seeds d u ∧ (0 ≤ max_depth -> d ≤ max_depth))
  ∧ (∀ u d, (u, d) ∈ Crawl.fetched st -> 0 ≤ d ≤ max_depth ∧ hops seeds d u)
  ∧ Crawl.visited st = list_to_set (Crawl.fetched st).*1
  ∧ NoDup (Crawl.fetched st).*1
  ∧ extracted (Crawl.fetched st)
  ∧ (∀ u d l, (u, d) ∈ Crawl.fetched st -> l ∈ found u ->
       l ∈ Crawl.all_links st
       ∧ (d < max_depth ->
          l ∈ Crawl.visited st ∨ (l, d + 1) ∈ Crawl.to_visit st))
  ∧ (∀ l, l ∈ Crawl.all_links st ->
       ∃ u d, (u, d) ∈ Crawl.fetched st ∧ l ∈ found u)
  ∧ (∀ s, s ∈ seeds -> 0 ≤ max_depth ->
       s ∈ Crawl.visited st ∨ (s, 0) ∈ Crawl.to_visit st).
Proof.
  induction 1 as [|st st' Hr IH Hne Hit].
  - unfold start_state; simpl. split_and!.
    + intros u d (s & [= -> ->] & Hs)%list_elem_of_fmap.
      split_and!; [lia|by constructor|done].
    + by intros u d ?%elem_of_nil.
    + done.
    + constructor.
    + by intros u d html ?%elem_of_nil.
    + by intros u d l ?%elem_of_nil.
    + intros l Hl. set_solver.
    + intros s Hs _. right. apply list_elem_of_fmap. eauto.
  - destruct IH as (IA & IB & IC & ID & IE & IF & IG & IH).
    apply crawl_iter_ok in Hit
      as (popped & taken & rest & Htv & -> & Hnd & Hfresh & Hsub & Hdep & Hvis
          & _ & _ & Hex).
    assert (Hpop : ∀ x, x ∈ popped -> x ∈ Crawl.to_visit st).
    { intros x Hx. rewrite Htv. apply elem_of_app. by left. }
    assert (Hrest : ∀ x, x ∈ rest -> x ∈ Crawl.to_visit st).
    { intros x Hx. rewrite Htv. apply elem_of_app. by right. }
    simpl. split_and!.
    + intros u d [Hin|Hin]%elem_of_app; [by apply IA, Hrest|].
      apply list_elem_of_bind in Hin as ([u0 d0] & Hc & Hx).
      apply elem_of_children in Hc as (-> & Hlt & Hl & _). simpl in *.
      destruct (IA u0 d0) as (? & ? & ?); [by apply Hpop, Hsub|].
      split_and!; [lia|by eapply found_hops|lia].
    + intros u d [Hin|Hin]%elem_of_app; [by apply IB|].
      destruct (IA u d) as (? & ? & ?); [by apply Hpop, Hsub|].
      split; [|done]. split; [done|by eapply Hdep].
    + rewrite fmap_app, list_to_set_app_L, IC. set_solver.
    + rewrite fmap_app. apply NoDup_app. split_and!; [done| |done].
      intros u Hu Hu'. apply (Hfresh u Hu'). rewrite IC.
      by apply elem_of_list_to_set.
    + intros u d html [Hin|Hin]%elem_of_app; [by eapply IE|by eapply Hex].
    + intros u d l [Hin|Hin]%elem_of_app Hl.
      * destruct (IF u d l Hin Hl) as [Hall Hq]. split; [set_solver|].
        intros Hlt. destruct (Hq Hlt) as [?|Hq']; [left; set_solver|].
        rewrite Htv in Hq'. apply elem_of_app in Hq' as [Hq'|Hq'].
        -- left. eapply Hvis; [done|lia].
        -- right. apply elem_of_app. by left.
      * split.
        -- apply elem_of_union. left. apply elem_of_list_to_set.
           apply list_elem_of_bind. exists u. split; [done|].
           apply list_elem_of_fmap. by exists (u, d).
        -- intros Hlt.
           destruct (decide (l ∈ list_to_set taken.*1 ∪ Crawl.visited st))
             as [?|Hnv]; [by left|].
           right. apply elem_of_app. right. apply list_elem_of_bind.
           exists (u, d). split; [|done]. by apply elem_of_children.
    + intros l [Hl|Hl]%elem_of_union.
      * apply elem_of_list_to_set, list_elem_of_bind in Hl as (u & Hl & Hu).
        apply list_elem_of_fmap in Hu as ([u' d] & -> & Hu).
        exists u', d. split; [|done]. apply elem_of_app. by right.
      * destruct (IG l Hl) as (u & d & ? & ?). exists u, d.
        split; [|done]. apply elem_of_app. by left.
    + intros s Hs Hmax. destruct (IH s Hs Hmax) as [?|Hq]; [left; set_solver|].
      rewrite Htv in Hq. apply elem_of_app in Hq as [Hq|Hq].
      * left. by eapply Hvis.
      * right. apply elem_of_app. by left.
Qed.

(** An entry waiting on the frontier within the depth limit stays waiting
    until its URL is visited. *)
Lemma pending_reach st st' u :
  reach st st' ->
  u ∈ Crawl.visited st ∨ (∃ d, (u, d) ∈ Crawl.to_visit st ∧ d ≤ max_depth) ->
  u ∈ Crawl.visited st' ∨ (∃ d, (u, d) ∈ Crawl.to_visit st' ∧ d ≤ max_depth).
Proof.
  induction 1 as [|st1 st2 Hr IH Hne Hit]; [done|].
  intros Hp. specialize (IH Hp).
  apply crawl_iter_ok in Hit
    as (popped & taken & rest & Htv & -> & _ & _ & _ & _ & Hvis & _).
  simpl. destruct IH as [?|(d & Hin & Hd)]; [left; set_solver|].
  rewrite Htv in Hin. apply elem_of_app in Hin as [Hin|Hin].
  - left. by eapply Hvis.
  - right. exists d. split; [|done]. apply elem_of_app. by left.
Qed.

Lemma reach_crawl st0 st fuel0 r :
  reach st0 st -> crawl fuel0 st0 = Some r -> ∃ fuel, crawl fuel st = Some r.
Proof.
  induction 1 as [|st st' Hr IH Hne Hit]; [eauto|].
  intros Hc. destruct (IH Hc) as [fuel Hf].
  destruct fuel as [|fuel]; simpl in Hf.
  - by destruct (Crawl.to_visit st).
  - destruct (Crawl.to_visit st); [done|]. rewrite Hit in Hf. eauto.
Qed.

(** By the end of a crawl that raised nothing, the URL of every entry that
    was ever on the frontier within the depth limit has been fetched. *)
Lemma frontier_fetched st stf fuel u d :
  reach (start_state seeds) st ->
  crawl fuel (start_state seeds) = Some (stf, None) ->
  (u, d) ∈ Crawl.to_visit st -> d ≤ max_depth ->
  u ∈ (Crawl.fetched stf).*1.
Proof.
  intros Hr Hc Hin Hd.
  destruct (reach_crawl _ _ _ _ Hr Hc) as [fuel' Hc'].
  pose proof (crawl_reach _ _ _ _ Hc) as [Hrf _].
  pose proof (crawl_reach _ _ _ _ Hc') as [Hrf' Hnil].
  destruct (pending_reach st stf u Hrf') as [Hv|(d' & Hq & _)]; [eauto| |].
  - apply reach_invariant in Hrf as (_ & _ & Hvis & _).
    rewrite Hvis in Hv. by apply elem_of_list_to_set in Hv.
  - rewrite Hnil in Hq. by apply elem_of_nil in Hq.
Qed.

(** The fetch log of a finished crawl never repeats a URL, whether the
    loop ran to its end or raised. *)
Lemma crawl_fetched_NoDup fuel stf outcome :
  crawl fuel (start_state seeds) = Some (stf, outcome) ->
  NoDup (Crawl.fetched stf).*1.
Proof.
  intros Hc. apply crawl_reach in Hc. destruct outcome as [msg|].
  - destruct Hc as (stl & Hr & _ & Hit).
    apply reach_invariant in Hr as (_ & _ & Hvis & Hnd & _).
    apply crawl_iter_raise in Hit as [(taken & -> & Hnd' & Hfresh) _].
    rewrite fmap_app. apply NoDup_app. split_and!; [done| |done].
    intros u Hu Hu'. apply (Hfresh u Hu'). rewrite Hvis.
    by apply elem_of_list_to_set.
  - destruct Hc as [Hr _]. by apply reach_invariant in Hr as (_ & _ & _ & ? & _).
Qed.

(** If the strategy raises on no served page, the loop raises nothing. *)
Lemma crawl_no_raise fuel st stf outcome :
  (∀ u html, fetch_html u = Ok html ->
     ∃ links, extract_links extractor (Html html) links_config = Ok links) ->
  crawl fuel st = Some (stf, outcome) -> outcome = None.
Proof.
  intros Hs Hc. destruct outcome as [msg|]; [|done].
  apply crawl_reach in Hc as (stl & _ & _ & Hit).
  apply crawl_iter_raise in Hit as [_ (u & html & Hf & He)].
  destruct (Hs u html Hf) as [links Hl]. congruence.
Qed.

End CrawlFacts.

(** ** [sorted] of a set *)

Section SortedFacts.

Lemma elem_of_sorted (s : gset string) x : x ∈ PyList.sorted s <-> x ∈ s.
Proof.
  unfold PyList.sorted. rewrite merge_sort_Permutation. apply elem_of_elements.
Qed.

Lemma sorted_Sorted (s : gset string) : Sorted String.le (PyList.sorted s).
Proof. apply Sorted_merge_sort, _. Qed.

Lemma sorted_NoDup (s : gset string) : NoDup (PyList.sorted s).
Proof.
  unfold PyList.sorted. rewrite merge_sort_Permutation. apply NoDup_elements.
Qed.

(** However the set is enumerated, sorting yields the same sequence. *)
Lemma sorted_canonical (s : gset string) (l : list string) :
  l ≡ₚ PyList.sorted s -> Sorted String.le l -> l = PyList.sorted s.
Proof.
  intros Hp Hs. apply (Sorted_unique String.le); [done|apply sorted_Sorted|done].
Qed.

Lemma fetch_calls_urls st : fetch_calls st = FetchCall <$> (Crawl.fetched st).*1.
Proof.
  unfold fetch_calls. induction (Crawl.fetched st) as [|[u d] l IH]; [done|].
  simpl. by rewrite IH.
Qed.

Lemma elem_of_fetch_calls st u :
  FetchCall u ∈ fetch_calls st <-> u ∈ (Crawl.fetched st).*1.
Proof.
  rewrite fetch_calls_urls, list_elem_of_fmap. split.
  - by intros (u' & [= ->] & ?).
  - eauto.
Qed.

End SortedFacts.

(** ** Fetch-mode link discovery of one site *)

Section FetchSite.
Context `{Env}.
Variable site_id : string.
Variable config : SiteConfig.t.
Variable extractor : Extractor.
Variable links : LinksConfig.t.
Hypothesis Hconfig : load_site_config site_id = Ok config.
Hypothesis Hextractor : get_extractor (SiteConfig.extractor config) = Ok extractor.
Hypothesis Hlinks : SiteConfig.links config = Some links.
Hypothesis Hmode : SiteConfig.mode config = fetch.

Let links_config := links_dict links (SiteConfig.baseUrl config).
Let max_depth := LinksConfig.maxDepth links.
Let seeds := start_urls (SiteConfig.baseUrl config) (LinksConfig.startUrls links).

(** In fetch mode [scrape_links] is the loop run from the seeds, wrapped
    into the result envelope. *)
Lemma scrape_links_fetch :
  scrape_links site_id
  = match crawl extractor links_config max_depth
            (crawl_budget extractor links_config max_depth (start_state seeds))
            (start_state seeds) with
    | None => None
    | Some (st, Some e) => Some (failed site_id links_op e, fetch_calls st)
    | Some (st, None) =>
        Some (succeeded site_id links_op (PyList.sorted (Crawl.all_links st)),
              fetch_calls st)
    end.
Proof.
  unfold scrape_links. rewrite Hconfig. simpl. rewrite Hextractor. simpl.
  by rewrite Hlinks, Hmode.
Qed.

Lemma scrape_links_fetch_inv r calls :
  scrape_links site_id = Some (r, calls) ->
  ∃ fuel stf outcome,
    crawl extractor links_config max_depth fuel (start_state seeds)
    = Some (stf, outcome)
    ∧ calls = fetch_calls stf
    ∧ r = match outcome with
          | Some e => failed site_id links_op e
          | None => succeeded site_id links_op (PyList.sorted (Crawl.all_links stf))
          end.
Proof.
  rewrite scrape_links_fetch.
  destruct (crawl _ _ _ _ _) as [[stf [e|]]|] eqn:Hc; [| |done].
  - intros [= <- <-]. eexists _, stf, (Some e). eauto.
  - intros [= <- <-]. eexists _, stf, None. eauto.
Qed.

Lemma scrape_links_success_inv r calls :
  scrape_links site_id = Some (r, calls) -> ScrapeResult.success r = true ->
  ∃ fuel stf,
    crawl extractor links_config max_depth fuel (start_state seeds)
    = Some (stf, None)
    ∧ calls = fetch_calls stf
    ∧ ScrapeResult.data r = PyList.sorted (Crawl.all_links stf).
Proof.
  intros (fuel & stf & [e|] & Hc & -> & ->)%scrape_links_fetch_inv; [done|].
  intros _. by exists fuel, stf.
Qed.

(** C2. With a non-negative depth limit no entry on the frontier is ever
    deeper than [maxDepth], and in a successful call every such entry has
    been fetched, those at depth [maxDepth] included.  Processing an entry
    at depth [maxDepth] adds its links to the result set and enqueues none
    of them.  In a successful call the links of every fetched page are in
    the result, and every URL of the result lies at most [maxDepth + 1]
    hops from a seed. *)
Theorem depth_boundary :
  (0 ≤ max_depth ->
   ∀ st u d,
     reach extractor links_config max_depth (start_state seeds) st ->
     (u, d) ∈ Crawl.to_visit st ->
     d ≤ max_depth
     ∧ ∀ r calls,
         scrape_links site_id = Some (r, calls) ->
         ScrapeResult.success r = true -> FetchCall u ∈ calls)
  ∧ (∀ st found_links,
       let st' := fold_left (add_link max_depth max_depth) found_links st in
       Crawl.to_visit st' = Crawl.to_visit st
       ∧ Crawl.all_links st' = list_to_set found_links ∪ Crawl.all_links st)
  ∧ (∀ r calls,
       scrape_links site_id = Some (r, calls) ->
       ScrapeResult.success r = true ->
       (∀ u found_links l,
          FetchCall u ∈ calls ->
          page_links extractor links_config u found_links ->
          l ∈ found_links -> l ∈ ScrapeResult.data r)
       ∧ (∀ l, l ∈ ScrapeResult.data r ->
            ∃ n, 1 ≤ n ≤ max_depth + 1
                 ∧ hops extractor links_config seeds n l)).
Proof.
  split_and!.
  - intros Hmax st u d Hr Hin.
    pose proof (reach_invariant _ _ _ _ _ Hr) as (IA & _).
    destruct (IA u d Hin) as (_ & _ & Hd). split; [by apply Hd|].
    intros r calls Hs Hok.
    destruct (scrape_links_success_inv r calls Hs Hok)
      as (fuel & stf & Hc & -> & _).
    apply elem_of_fetch_calls. eapply frontier_fetched; [done..|by apply Hd].
  - intros st found_links. simpl. rewrite fold_add_link. simpl.
    rewrite children_at_limit by lia. by rewrite app_nil_r.
  - intros r calls Hs Hok.
    destruct (scrape_links_success_inv r calls Hs Hok)
      as (fuel & stf & Hc & -> & ->).
    pose proof (crawl_reach _ _ _ _ _ _ _ Hc) as [Hrf Hnil].
    pose proof (reach_invariant _ _ _ _ _ Hrf)
      as (IA & IB & IC & ID & IE & IF & IG & IH).
    split.
    + intros u found_links l Hu Hp Hl.
      apply elem_of_fetch_calls, list_elem_of_fmap in Hu as ([u' d] & -> & Hu).
      simpl in Hp. apply elem_of_sorted. apply (IF u' d l Hu).
      by rewrite (page_links_found _ _ _ _ Hp).
    + intros l Hl%elem_of_sorted.
      destruct (IG l Hl) as (u & d & Hu & Hf).
      destruct (IB u d Hu) as [? ?]. exists (d + 1). split; [lia|].
      by eapply found_hops.
Qed.

(** C3 as the code has it.  The visited set holds exactly the URL strings
    handed to [fetch_html], as they were taken from the frontier; no URL
    string is fetched twice; and the seed URLs of a successful call are
    fetched verbatim. *)
Theorem visited_exact_strings :
  (∀ st,
     reach extractor links_config max_depth (start_state seeds) st ->
     Crawl.visited st = list_to_set (Crawl.fetched st).*1)
  ∧ (∀ r calls,
       scrape_links site_id = Some (r, calls) ->
       NoDup calls
       ∧ (ScrapeResult.success r = true -> 0 ≤ max_depth ->
          ∀ s, s ∈ seeds -> FetchCall s ∈ calls)).
Proof.
  split.
  - intros st Hr. by apply reach_invariant in Hr as (_ & _ & ? & _).
  - intros r calls Hs. split.
    + apply scrape_links_fetch_inv in Hs as (fuel & stf & o & Hc & -> & _).
      rewrite fetch_calls_urls. apply NoDup_fmap_2; [by intros ?? [=]|].
      by eapply crawl_fetched_NoDup.
    + intros Hok Hmax s Hin.
      destruct (scrape_links_success_inv r calls Hs Hok)
        as (fuel & stf & Hc & -> & _).
      apply elem_of_fetch_calls.
      eapply (frontier_fetched _ _ _ _ (start_state seeds)); [constructor|done| |done].
      unfold start_state. simpl. apply list_elem_of_fmap. eauto.
Qed.

(** C4. Provided the strategy raises on no served page, the call succeeds
    whatever fetches fail: a failed entry of a batch is skipped as if it
    were not there, the links of every fetched page are in the result,
    every seed is fetched, and so is every link found on a fetched page
    below the depth limit. *)
Theorem fetch_failures_isolated :
  (∀ u html, fetch_html u = Ok html ->
     ∃ found_links,
       extract_links extractor (Html html) links_config = Ok found_links) ->
  (∀ items1 items2 u d msg st,
     process_batch extractor links_config max_depth
       (items1 ++ ((u, d), Raise msg) :: items2) st
     = process_batch extractor links_config max_depth (items1 ++ items2) st)
  ∧ ∃ r calls,
      scrape_links site_id = Some (r, calls)
      ∧ ScrapeResult.success r = true
      ∧ (∀ u found_links l,
           FetchCall u ∈ calls ->
           page_links extractor links_config u found_links ->
           l ∈ found_links -> l ∈ ScrapeResult.data r)
      ∧ (0 ≤ max_depth -> ∀ s, s ∈ seeds -> FetchCall s ∈ calls)
      ∧ (∀ st u d found_links l,
           reach extractor links_config max_depth (start_state seeds) st ->
           (u, d) ∈ Crawl.fetched st -> d < max_depth ->
           page_links extractor links_config u found_links ->
           l ∈ found_links -> FetchCall l ∈ calls).
Proof.
  intros Hstrategy. split.
  - intros items1 items2 u d msg. induction items1 as [|[[u1 d1] res] items1 IH];
      intros st; [done|].
    simpl. destruct res as [html|]; [|done].
    destruct (extract_links _ _ _); [|done]. apply IH.
  - destruct (crawl_returns extractor links_config max_depth (start_state seeds))
      as [[stf o] Hc].
    assert (o = None) as -> by (by eapply crawl_no_raise).
    exists (succeeded site_id links_op (PyList.sorted (Crawl.all_links stf))),
      (fetch_calls stf).
    assert (Hs : scrape_links site_id
                 = Some (succeeded site_id links_op
                           (PyList.sorted (Crawl.all_links stf)),
                         fetch_calls stf)).
    { rewrite scrape_links_fetch. fold links_config max_depth seeds.
      by rewrite Hc. }
    pose proof (crawl_reach _ _ _ _ _ _ _ Hc) as [Hrf Hnil].
    pose proof (reach_invariant _ _ _ _ _ Hrf)
      as (IA & IB & IC & ID & IE & IF & IG & IH).
    split_and!; [done|done|..].
    + intros u found_links l Hu Hp Hl.
      apply elem_of_fetch_calls, list_elem_of_fmap in Hu as ([u' d] & -> & Hu).
      simpl in Hp. apply elem_of_sorted. apply (IF u' d l Hu).
      by rewrite (page_links_found _ _ _ _ Hp).
    + intros Hmax s Hin. apply elem_of_fetch_calls.
      eapply (frontier_fetched _ _ _ _ (start_state seeds)); [constructor|done| |done].
      unfold start_state. simpl. apply list_elem_of_fmap. eauto.
    + intros st u d found_links l Hr Hu Hd Hp Hl. apply elem_of_fetch_calls.
      pose proof (reach_invariant _ _ _ _ _ Hr) as (_ & _ & IC' & _ & _ & IF' & _).
      destruct (IF' u d l Hu) as [_ Hq].
      { by rewrite (page_links_found _ _ _ _ Hp). }
      destruct (reach_crawl _ _ _ _ _ _ _ Hr Hc) as [fuel' Hc'].
      pose proof (crawl_reach _ _ _ _ _ _ _ Hc') as [Hrf' _].
      destruct (pending_reach _ _ _ st stf l Hrf') as [Hv|(d' & Hq' & _)].
      * destruct (Hq Hd) as [?|?]; [by left|right].
        exists (d + 1). split; [done|lia].
      * rewrite IC in Hv. by apply elem_of_list_to_set in Hv.
      * rewrite Hnil in Hq'. by apply elem_of_nil in Hq'.
Qed.

End FetchSite.

(** ** The two public operations *)

Section Operations.
Context `{Env}.

(** C10. In fetch mode every extractor but the Terraform one returns the
    markup it was given, as the only element, whatever the selector and
    the method. *)
Theorem fetch_content_is_markup (e : Extractor) (html : string)
    (config : ContentDict.t) :
  e ≠ TerraformExtractor ->
  extract_content e (Html html) config = Ok [html].
Proof. intros He. by destruct e. Qed.

(** C6. The executor a content call goes to is decided by the content
    config's mode when it is set and by the site's mode otherwise; with a
    fetch-mode site and a browser override the one call made is to the
    browser, none to the HTTP fetcher, and the result is what the browser
    path yields. *)
Theorem content_mode_dispatch (site_id path : string) (config : SiteConfig.t)
    (e : Extractor) (content : ContentConfig.t) :
  load_site_config site_id = Ok config ->
  get_extractor (SiteConfig.extractor config) = Ok e ->
  SiteConfig.content config = Some content ->
  let url := SiteConfig.baseUrl config +:+ path in
  let permissions :=
    if decide (ContentConfig.method content = click_copy)
    then ["clipboard-read"; "clipboard-write"] else [] in
  let browser_call :=
    BrowserCall url (ContentConfig.waitFor content) permissions in
  (scrape_content site_id path).2
  = match ContentConfig.mode content with
    | Some fetch => [FetchCall url]
    | Some browser => [browser_call]
    | None =>
        match SiteConfig.mode config with
        | fetch => [FetchCall url]
        | browser => [browser_call]
        end
    end
  ∧ (SiteConfig.mode config = fetch ->
     ContentConfig.mode content = Some browser ->
     (scrape_content site_id path).2 = [browser_call]
     ∧ (∀ u, FetchCall u ∉ (scrape_content site_id path).2)
     ∧ (scrape_content site_id path).1
       = match (page ← browser_page url (ContentConfig.waitFor content)
                          permissions;
                extract_content e (LivePage page)
                  (content_dict content (SiteConfig.baseUrl config))) with
         | Ok data => succeeded site_id content_op data
         | Raise msg => failed site_id content_op msg
         end).
Proof.
  intros Hc He Hcontent. simpl. unfold scrape_content.
  rewrite Hc. simpl. rewrite He. simpl. rewrite Hcontent.
  split.
  - destruct (ContentConfig.mode content) as [[]|];
      [done|done|by destruct (SiteConfig.mode config)].
  - intros Hm ->. split_and!; [done| |].
    + intros u [[=]|[]%elem_of_nil]%elem_of_cons.
    + simpl. by destruct (browser_page _ _ _).
Qed.

(** C7. The data of a successful link discovery is in ascending order
    without duplicates, and it is the only ascending arrangement of the
    links found: any other enumeration of them sorts to the same
    sequence.  The same holds for the links the default strategy returns
    for one page. *)
Theorem links_sorted_unique :
  (∀ site_id r calls,
     scrape_links site_id = Some (r, calls) ->
     ScrapeResult.success r = true ->
     Sorted String.le (ScrapeResult.data r) ∧ NoDup (ScrapeResult.data r)
     ∧ ∀ l, l ≡ₚ ScrapeResult.data r -> Sorted String.le l ->
            l = ScrapeResult.data r)
  ∧ (∀ html base_url pattern found_links,
       _extract_links_from_html html base_url pattern = Ok found_links ->
       Sorted String.le found_links ∧ NoDup found_links).
Proof.
  split.
  - intros site_id r calls Hs Hok.
    assert (∃ s : gset string, ScrapeResult.data r = PyList.sorted s)
      as [s ->].
    { revert Hs. unfold scrape_links.
      destruct (_ ≫= _) as [[config e]|msg]; [|by intros [= <- <-]].
      destruct (SiteConfig.links config) as [links|]; [|by intros [= <- <-]].
      destruct (SiteConfig.mode config).
      - destruct (crawl _ _ _ _ _) as [[stf [msg|]]|]; [| |done];
          intros [= <- <-]; [done|]. simpl. eauto.
      - destruct (_ ≫= _) as [all_links|msg]; intros [= <- <-]; [|done].
        simpl. eauto. }
    split_and!; [apply sorted_Sorted|apply sorted_NoDup|].
    intros l. apply sorted_canonical.
  - intros html base_url pattern found_links. unfold _extract_links_from_html.
    destruct (links_from_matches _ _ _ _) as [s|]; [|done].
    intros [= <-]. split; [apply sorted_Sorted|apply sorted_NoDup].
Qed.

End Operations.

(** ** The render-only strategy *)

Section Terraform.
Context `{Env}.

(** C9. Given markup instead of a live page, both operations of the
    Terraform extractor raise; a fetch-mode content call on a served page
    and a fetch-mode link discovery with a served seed both come back as
    failures carrying that message. *)
Theorem terraform_requires_browser :
  (∀ html config,
     extract_links TerraformExtractor (Html html) config
     = Raise "TerraformExtractor requires browser mode for link extraction")
  ∧ (∀ html config,
       extract_content TerraformExtractor (Html html) config
       = Raise "TerraformExtractor requires browser mode for content extraction")
  ∧ (∀ site_id path config content html,
       load_site_config site_id = Ok config ->
       SiteConfig.extractor config = "terraform" ->
       SiteConfig.content config = Some content ->
       match ContentConfig.mode content with
       | Some m => m
       | None => SiteConfig.mode config
       end = fetch ->
       fetch_html (SiteConfig.baseUrl config +:+ path) = Ok html ->
       (scrape_content site_id path).1
       = failed site_id content_op
           "TerraformExtractor requires browser mode for content extraction")
  ∧ (∀ site_id config links seed html,
       load_site_config site_id = Ok config ->
       SiteConfig.extractor config = "terraform" ->
       SiteConfig.links config = Some links ->
       SiteConfig.mode config = fetch ->
       0 ≤ LinksConfig.maxDepth links ->
       seed ∈ start_urls (SiteConfig.baseUrl config) (LinksConfig.startUrls links) ->
       fetch_html seed = Ok html ->
       ∃ calls,
         scrape_links site_id
         = Some (failed site_id links_op
                   "TerraformExtractor requires browser mode for link extraction",
                 calls)).
Proof.
  split_and!; [done|done| |].
  - intros site_id path config content html Hc He Hcontent Hm Hf.
    unfold scrape_content. rewrite Hc. simpl. rewrite He. simpl.
    rewrite Hcontent, Hm, Hf. done.
  - intros site_id config links seed html Hc He Hl Hm Hmax Hseed Hf.
    assert (He' : get_extractor (SiteConfig.extractor config)
                  = Ok TerraformExtractor) by (by rewrite He).
    rewrite (scrape_links_fetch site_id config TerraformExtractor links)
      by done.
    set (cfg := links_dict links (SiteConfig.baseUrl config)).
    set (seeds := start_urls _ _) in *.
    destruct (crawl_returns TerraformExtractor cfg (LinksConfig.maxDepth links)
                (start_state seeds)) as [[stf o] Hcr].
    rewrite Hcr. destruct o as [msg|].
    + apply crawl_reach in Hcr as (stl & _ & _ & Hit).
      apply crawl_iter_raise in Hit as [_ (u & html' & _ & Hx)].
      simpl in Hx. injection Hx as <-. eauto.
    + exfalso. pose proof (crawl_reach _ _ _ _ _ _ _ Hcr) as [Hr Hnil].
      apply reach_invariant in Hr as (_ & _ & Hvis & _ & Hex & _ & _ & Hs).
      destruct (Hs seed Hseed Hmax) as [Hv|Hq].
      * rewrite Hvis in Hv.
        apply elem_of_list_to_set, list_elem_of_fmap in Hv as ([u d] & -> & Hu).
        destruct (Hex u d html Hu Hf) as [found_links Hx]. done.
      * rewrite Hnil in Hq. by apply elem_of_nil in Hq.
Qed.

End Terraform.

(** ** The scenario site *)

Section Scenario.
Variable join : string -> string -> result string.
Variable web : string -> result string.
Variable browser : string -> option string -> list string -> result Page.t.
Variable root : string.

Let world : Env := DocsA.env join DocsA.scenario web browser.

Hypothesis Hroot : web DocsA.base = Ok root.
Hypothesis Hanchors :
  Re.finditer_href 0 root
  = ["/guide/intro"; "/blog"; "https://other.test/guide/x"].
Hypothesis Hintro :
  ∀ html, web DocsA.intro = Ok html ->
    ∃ found_links,
      @extract_links world DefaultExtractor (Html html) DocsA.links_config
      = Ok found_links
      ∧ ∀ l, l ∈ found_links -> l = DocsA.intro.

Lemma root_links :
  @extract_links world DefaultExtractor (Html root) DocsA.links_config
  = Ok [DocsA.intro].
Proof.
  unfold extract_links, _extract_links_from_html. simpl.
  rewrite Hanchors. vm_compute. reflexivity.
Qed.

Lemma docs_a_crawl :
  ∃ stf,
    @crawl world DefaultExtractor DocsA.links_config 1 2
      (start_state [DocsA.base]) = Some (stf, None)
    ∧ Crawl.all_links stf = {[DocsA.intro]}.
Proof.
  set (st0 := start_state [DocsA.base]).
  assert (Hit1 : @crawl_iter world DefaultExtractor DocsA.links_config 1 st0
                 = (Crawl.mk [(DocsA.intro, 1)] {[DocsA.base]} {[DocsA.intro]}
                      [(DocsA.base, 0)], None)).
  { rewrite (crawl_iter_single _ _ _ st0 DocsA.base 0); [|done|set_solver|lia].
    change (@fetch_html world DocsA.base) with (web DocsA.base).
    rewrite Hroot, root_links, fold_add_link. reflexivity. }
  set (st1 := Crawl.mk [(DocsA.intro, 1)] {[DocsA.base]} {[DocsA.intro]}
                [(DocsA.base, 0)]) in *.
  assert (Hit2 : ∃ st2,
            @crawl_iter world DefaultExtractor DocsA.links_config 1 st1
            = (st2, None)
            ∧ Crawl.to_visit st2 = [] ∧ Crawl.all_links st2 = {[DocsA.intro]}).
  { rewrite (crawl_iter_single _ _ _ st1 DocsA.intro 1); [|done| |lia].
    2: { simpl. intros [=]%elem_of_singleton. }
    change (@fetch_html world DocsA.intro) with (web DocsA.intro).
    destruct (web DocsA.intro) as [html|] eqn:Hw; [|by eexists].
    destruct (Hintro html eq_refl) as (found_links & -> & Hall).
    eexists. split; [done|]. rewrite fold_add_link. simpl.
    rewrite children_at_limit by lia. split; [done|].
    apply set_eq. intros l. rewrite elem_of_union, elem_of_list_to_set.
    split; [intros [?%Hall|?]|]; set_solver. }
  destruct Hit2 as (st2 & Hit2 & Hnil & Hall).
  exists st2. split; [|done].
  change (@crawl world DefaultExtractor DocsA.links_config 1 2 st0)
    with (match @crawl_iter world DefaultExtractor DocsA.links_config 1 st0 with
          | (st', Some e) => Some (st', Some e)
          | (st', None) =>
              @crawl world DefaultExtractor DocsA.links_config 1 1 st'
          end).
  rewrite Hit1.
  change (@crawl world DefaultExtractor DocsA.links_config 1 1 st1)
    with (match @crawl_iter world DefaultExtractor DocsA.links_config 1 st1 with
          | (st', Some e) => Some (st', Some e)
          | (st', None) =>
              @crawl world DefaultExtractor DocsA.links_config 1 0 st'
          end).
  rewrite Hit2. simpl. by rewrite Hnil.
Qed.

(** C1 as the code has it.  With the three links on the base page, and
    the intro page (which is fetched, being at depth 1) either not served
    or yielding no link but itself, discovery succeeds with the intro page
    as its only result. *)
Theorem docs_a_discovery :
  ∃ calls,
    @scrape_links world "docs-a"
    = Some (succeeded "docs-a" links_op ["https://docs-a.test/guide/intro"],
            calls).
Proof.
  destruct docs_a_crawl as (stf & Hc & Hall).
  rewrite (@scrape_links_fetch world "docs-a" DocsA.scenario DefaultExtractor
             DocsA.links) by reflexivity.
  match goal with
  | |- context [crawl ?e ?c ?m (crawl_budget _ _ _ ?st) _] =>
      destruct (@crawl_returns world e c m st) as [r Hr]; rewrite Hr;
      rewrite (@crawl_fuel_irrelevant world _ _ _ _ _ _ _ _ Hr Hc)
  end.
  rewrite Hall. eexists. reflexivity.
Qed.

End Scenario.

(** ** The theorems at work on the scenario site *)

Lemma docs_a_discovery_witness :
  DocsA.web_root_only DocsA.base = Ok DocsA.root_page
  ∧ Re.finditer_href 0 DocsA.root_page
    = ["/guide/intro"; "/blog"; "https://other.test/guide/x"]
  ∧ ∃ calls,
      @scrape_links DocsA.world_root "docs-a"
      = Some (succeeded "docs-a" links_op ["https://docs-a.test/guide/intro"],
              calls).
Proof.
  split; [reflexivity|]. split; [reflexivity|].
  apply (docs_a_discovery DocsA.no_join DocsA.web_root_only DocsA.no_browser
           DocsA.root_page); [reflexivity|reflexivity|].
  intros html Hw. vm_compute in Hw. discriminate Hw.
Defined.

(** C1 as the spec states it fails: with the same base page, an intro
    page that links on yields a second result. *)
Lemma docs_a_discovery_counterexample :
  DocsA.web_with_intro DocsA.base = Ok DocsA.root_page
  ∧ Re.finditer_href 0 DocsA.root_page
    = ["/guide/intro"; "/blog"; "https://other.test/guide/x"]
  ∧ @scrape_links DocsA.world_intro "docs-a"
    = Some (succeeded "docs-a" links_op
              ["https://docs-a.test/guide/advanced";
               "https://docs-a.test/guide/intro"],
            [FetchCall "https://docs-a.test";
             FetchCall "https://docs-a.test/guide/intro"]).
Proof. split_and!; vm_compute; reflexivity. Qed.

Lemma depth_boundary_witness :
  0 ≤ 1
  ∧ @scrape_links DocsA.world_intro "docs-a"
    = Some (succeeded "docs-a" links_op
              ["https://docs-a.test/guide/advanced";
               "https://docs-a.test/guide/intro"],
            [FetchCall "https://docs-a.test";
             FetchCall "https://docs-a.test/guide/intro"])
  ∧ FetchCall DocsA.base ∈ [FetchCall "https://docs-a.test";
                            FetchCall "https://docs-a.test/guide/intro"].
Proof.
  assert (Hs : @scrape_links DocsA.world_intro "docs-a"
               = Some (succeeded "docs-a" links_op
                         ["https://docs-a.test/guide/advanced";
                          "https://docs-a.test/guide/intro"],
                       [FetchCall "https://docs-a.test";
                        FetchCall "https://docs-a.test/guide/intro"])).
  { vm_compute. reflexivity. }
  split; [lia|]. split; [exact Hs|].
  destruct (@depth_boundary DocsA.world_intro "docs-a" DocsA.scenario
              DefaultExtractor DocsA.links eq_refl eq_refl eq_refl eq_refl)
    as (Hfrontier & _ & _).
  destruct (Hfrontier ltac:(simpl; lia) (start_state [DocsA.base]) DocsA.base 0
              (reach_start _ _ _ _) (list_elem_of_here _ _)) as [_ Hfetched].
  exact (Hfetched _ _ Hs eq_refl).
Defined.

Lemma visited_exact_strings_witness :
  @scrape_links DocsA.world_guide "docs-a"
  = Some (succeeded "docs-a" links_op ["https://docs-a.test/guide"],
          [FetchCall "https://docs-a.test/guide/";
           FetchCall "https://docs-a.test/guide"])
  ∧ NoDup [FetchCall "https://docs-a.test/guide/";
           FetchCall "https://docs-a.test/guide"].
Proof.
  assert (Hs : @scrape_links DocsA.world_guide "docs-a"
               = Some (succeeded "docs-a" links_op ["https://docs-a.test/guide"],
                       [FetchCall "https://docs-a.test/guide/";
                        FetchCall "https://docs-a.test/guide"])).
  { vm_compute. reflexivity. }
  split; [exact Hs|].
  destruct (@visited_exact_strings DocsA.world_guide "docs-a" DocsA.guide_site
              DefaultExtractor (LinksConfig.mk ["/guide/"] "/guide" None 1)
              eq_refl eq_refl eq_refl eq_refl) as [_ Hcalls].
  destruct (Hcalls _ _ Hs) as [Hnd _]. exact Hnd.
Defined.

(** C3 as the spec states it fails: the seed enters the visited set with
    its trailing slash, the link back to it without, and the same page is
    fetched under both spellings. *)
Lemma visited_not_normalized :
  @scrape_links DocsA.world_guide "docs-a"
  = Some (succeeded "docs-a" links_op ["https://docs-a.test/guide"],
          [FetchCall "https://docs-a.test/guide/";
           FetchCall "https://docs-a.test/guide"])
  ∧ _clean_url "https://docs-a.test/guide/" = _clean_url "https://docs-a.test/guide"
  ∧ _clean_url "https://docs-a.test/guide/" ≠ "https://docs-a.test/guide/".
Proof. split_and!; vm_compute; [reflexivity|reflexivity|discriminate]. Qed.

Lemma fetch_failures_isolated_witness :
  DocsA.web_root_only DocsA.intro = Raise "404 Not Found"
  ∧ ∃ r calls,
      @scrape_links DocsA.world_root "docs-a" = Some (r, calls)
      ∧ ScrapeResult.success r = true
      ∧ ∀ u found_links l,
          FetchCall u ∈ calls ->
          @page_links DocsA.world_root DefaultExtractor DocsA.links_config
            u found_links ->
          l ∈ found_links -> l ∈ ScrapeResult.data r.
Proof.
  split; [reflexivity|].
  assert (Hstrategy : ∀ u html, @fetch_html DocsA.world_root u = Ok html ->
            ∃ found_links,
              @extract_links DocsA.world_root DefaultExtractor (Html html)
                DocsA.links_config = Ok found_links).
  { intros u html. simpl. unfold DocsA.web_root_only.
    destruct (String.eqb u DocsA.base); [|discriminate].
    intros [= <-]. eexists. vm_compute. reflexivity. }
  destruct (@fetch_failures_isolated DocsA.world_root "docs-a" DocsA.scenario
              DefaultExtractor DocsA.links eq_refl eq_refl eq_refl eq_refl
              Hstrategy) as [_ (r & calls & Hs & Hok & Hin & _)].
  exists r, calls. split; [exact Hs|]. split; [exact Hok|exact Hin].
Defined.

Lemma fetch_content_is_markup_witness :
  ModalExtractor ≠ TerraformExtractor
  ∧ extract_content ModalExtractor (Html "<p>Hello</p>")
      (content_dict DocsA.fetch_content DocsA.base)
    = Ok ["<p>Hello</p>"].
Proof.
  split; [discriminate|].
  apply fetch_content_is_markup. discriminate.
Defined.

Lemma content_mode_dispatch_witness :
  SiteConfig.mode DocsA.render_site = fetch
  ∧ ContentConfig.mode DocsA.render_content = Some browser
  ∧ (@scrape_content DocsA.world_render "docs-a" "/guide/intro").2
    = [BrowserCall "https://docs-a.test/guide/intro" None []].
Proof.
  split; [reflexivity|]. split; [reflexivity|].
  destruct (@content_mode_dispatch DocsA.world_render "docs-a" "/guide/intro"
              DocsA.render_site DefaultExtractor DocsA.render_content
              eq_refl eq_refl eq_refl) as [_ Hover].
  destruct (Hover eq_refl eq_refl) as [Hcalls _]. exact Hcalls.
Defined.

Lemma links_sorted_unique_witness :
  @scrape_links DocsA.world_intro "docs-a"
  = Some (succeeded "docs-a" links_op
            ["https://docs-a.test/guide/advanced";
             "https://docs-a.test/guide/intro"],
          [FetchCall "https://docs-a.test";
           FetchCall "https://docs-a.test/guide/intro"])
  ∧ Sorted String.le ["https://docs-a.test/guide/advanced";
                      "https://docs-a.test/guide/intro"]
  ∧ NoDup ["https://docs-a.test/guide/advanced";
           "https://docs-a.test/guide/intro"].
Proof.
  assert (Hs : @scrape_links DocsA.world_intro "docs-a"
               = Some (succeeded "docs-a" links_op
                         ["https://docs-a.test/guide/advanced";
                          "https://docs-a.test/guide/intro"],
                       [FetchCall "https://docs-a.test";
                        FetchCall "https://docs-a.test/guide/intro"])).
  { vm_compute. reflexivity. }
  split; [exact Hs|].
  destruct (proj1 (@links_sorted_unique DocsA.world_intro) "docs-a" _ _
              Hs eq_refl) as (Hsorted & Hnd & _).
  split; [exact Hsorted|exact Hnd].
Defined.

Lemma terraform_requires_browser_witness :
  0 ≤ 1
  ∧ @fetch_html DocsA.world_terraform DocsA.base = Ok DocsA.root_page
  ∧ (@scrape_content DocsA.world_terraform "docs-a" "").1
    = failed "docs-a" content_op
        "TerraformExtractor requires browser mode for content extraction"
  ∧ ∃ calls,
      @scrape_links DocsA.world_terraform "docs-a"
      = Some (failed "docs-a" links_op
                "TerraformExtractor requires browser mode for link extraction",
              calls).
Proof.
  split; [lia|]. split; [reflexivity|].
  destruct (@terraform_requires_browser DocsA.world_terraform)
    as (_ & _ & Hcontent & Hlinks).
  split.
  - apply (Hcontent "docs-a" "" DocsA.terraform_site DocsA.fetch_content
             DocsA.root_page); reflexivity.
  - apply (Hlinks "docs-a" DocsA.terraform_site DocsA.links DocsA.base
             DocsA.root_page); try reflexivity.
    + simpl. lia.
    + apply list_elem_of_here.
Defined.

(** * Further properties of the package *)

(** ** [_clean_url] *)

Section CleanUrl.

Local Open Scope string_scope.

Lemma split_head_prefix sep s : ∃ rest, s = Py.split_head sep s ++ rest.
Proof.
  induction s as [|c s [rest IH]]; [by exists ""|]. simpl.
  destruct (Ascii.eqb c sep); [by exists (String c s)|].
  exists rest. by rewrite string_app_cons, <- IH.
Qed.

Lemma rstrip_prefix ch s : ∃ rest, s = Py.rstrip ch s ++ rest.
Proof.
  induction s as [|c s [rest IH]]; [by exists ""|]. simpl.
  destruct (Py.rstrip ch s) as [|b r] eqn:E.
  - destruct (Ascii.eqb c ch); [by exists (String c s)|].
    exists rest. by rewrite string_app_cons, <- IH.
  - exists rest. by rewrite string_app_cons, <- IH.
Qed.

Lemma rstrip_length ch s :
  (String.length (Py.rstrip ch s) ≤ String.length s)%nat.
Proof.
  induction s as [|c s IH]; simpl; [lia|].
  destruct (Py.rstrip ch s); [destruct (Ascii.eqb c ch)|]; simpl in *; lia.
Qed.

Lemma string_length_app (a b : string) :
  String.length (a ++ b) = (String.length a + String.length b)%nat.
Proof.
  induction a as [|c a IH]; [done|]. rewrite string_app_cons. simpl.
  by rewrite IH.
Qed.

Lemma rstrip_no_trailing ch s t : Py.rstrip ch s ≠ t ++ String ch "".
Proof.
  intros Heq. pose proof (rstrip_idem ch s) as Hidem.
  rewrite Heq, rstrip_snoc in Hidem.
  pose proof (rstrip_length ch t) as Hlen.
  rewrite Hidem, string_length_app in Hlen. simpl in Hlen. lia.
Qed.

Lemma clean_url_fixed u : _clean_url (_clean_url u) = _clean_url u.
Proof.
  unfold _clean_url.
  set (v := Py.split_head "#" (Py.split_head "?" u)).
  rewrite (split_head_absent "?"), (split_head_absent "#").
  - apply rstrip_idem.
  - apply has_char_rstrip. subst v. apply has_char_split_head.
  - apply has_char_rstrip. subst v.
    apply has_char_split_head_other, has_char_split_head.
Qed.

(** X1. A cleaned URL is an initial part of the URL it was made from; it
    holds no question mark and no hash sign, and it does not end in a
    slash. *)
Theorem clean_url_shape (u : string) :
  (∃ rest, u = _clean_url u ++ rest)
  ∧ Py.has_char "?" (_clean_url u) = false
  ∧ Py.has_char "#" (_clean_url u) = false
  ∧ ∀ t, _clean_url u ≠ t ++ "/".
Proof.
  unfold _clean_url. split_and!.
  - destruct (split_head_prefix "?" u) as [r1 H1].
    destruct (split_head_prefix "#" (Py.split_head "?" u)) as [r2 H2].
    destruct (rstrip_prefix "/" (Py.split_head "#" (Py.split_head "?" u)))
      as [r3 H3].
    exists (r3 ++ r2 ++ r1).
    rewrite !string_app_assoc, <- H3, <- H2. exact H1.
  - apply has_char_rstrip, has_char_split_head_other, has_char_split_head.
  - apply has_char_rstrip, has_char_split_head.
  - intros t. apply rstrip_no_trailing.
Qed.

End CleanUrl.

(** ** The href scan *)

Section HrefScan.

Local Open Scope string_scope.

Lemma prefix_drop p s :
  String.prefix p s = true -> s = p ++ Py.drop (String.length p) s.
Proof.
  revert s. induction p as [|c p IH]; intros s; [done|].
  destruct s as [|c' s]; simpl; [done|].
  destruct (ascii_dec c c') as [->|]; [|done].
  intros Hp. rewrite string_app_cons. f_equal. by apply IH.
Qed.

Lemma until_quote_spec s g :
  Re.until_quote s = Some g ->
  Py.has_char Py.dquote g = false ∧ ∃ rest, s = g ++ String Py.dquote rest.
Proof.
  revert g. induction s as [|c s IH]; intros g; simpl; [done|].
  destruct (Ascii.eqb c Py.dquote) eqn:Ec.
  - intros [= <-]. split; [done|]. exists s.
    by apply Ascii.eqb_eq in Ec as ->.
  - destruct (Re.until_quote s) as [g'|]; [|done]. intros [= <-].
    destruct (IH g' eq_refl) as [Hq [rest ->]]. split.
    + simpl. by rewrite Ec, Hq.
    + by exists rest.
Qed.

Lemma match_href_spec s g :
  Re.match_href s = Some g ->
  Py.has_char Py.dquote g = false
  ∧ ∃ rest, s = "href=" ++ String Py.dquote (g ++ String Py.dquote rest).
Proof.
  unfold Re.match_href, Py.startswith.
  destruct (String.prefix _ s) eqn:Hp; [|done].
  apply prefix_drop in Hp. intros [Hq [rest Hr]]%until_quote_spec.
  split; [done|]. exists rest. rewrite Hp at 1.
  change (String.length ("href=" ++ String Py.dquote "")) with 6%nat.
  by rewrite Hr.
Qed.

(** X2. Every href value the scan reports stands in the markup between
    the text [href=], a double quote, and the next double quote, and so
    holds no double quote itself; markup in which that opening text does
    not occur yields nothing. *)
Theorem href_scan_sound (html : string) :
  (∀ g, g ∈ Re.finditer_href 0 html ->
     Py.has_char Py.dquote g = false
     ∧ ∃ before after,
         html = before ++ "href="
                  ++ String Py.dquote (g ++ String Py.dquote after))
  ∧ (Py.contains ("href=" ++ String Py.dquote "") html = false ->
     Re.finditer_href 0 html = []).
Proof.
  split.
  - generalize 0%nat. induction html as [|c s IH]; intros skip g; simpl.
    { by intros ?%elem_of_nil. }
    assert (Htail : ∀ k, g ∈ Re.finditer_href k s ->
              Py.has_char Py.dquote g = false
              ∧ ∃ before after,
                  String c s = before ++ "href="
                    ++ String Py.dquote (g ++ String Py.dquote after)).
    { intros k Hg. destruct (IH k g Hg) as [Hq (before & after & ->)].
      split; [done|]. by exists (String c before), after. }
    destruct skip as [|k]; [|by apply Htail].
    destruct (Re.match_href (String c s)) as [g'|] eqn:Hm; [|by apply Htail].
    intros [->|Hg]%elem_of_cons; [|by eapply Htail].
    apply match_href_spec in Hm as [Hq [rest Hr]]. split; [done|].
    exists "", rest. by rewrite Hr.
  - generalize 0%nat. induction html as [|c s IH]; intros skip; [done|].
    change (Py.contains ?p (String c s))
      with (String.prefix p (String c s) || Py.contains p s).
    intros [Hp Hc]%orb_false_iff.
    change (Re.finditer_href skip (String c s))
      with (match skip with
            | S k => Re.finditer_href k s
            | O =>
                match Re.match_href (String c s) with
                | Some g => g :: Re.finditer_href (6 + String.length g) s
                | None => Re.finditer_href 0 s
                end
            end).
    destruct skip as [|k]; [|by apply IH].
    unfold Re.match_href, Py.startswith. rewrite Hp. by apply IH.
Qed.

End HrefScan.

(** ** The registry and the site store *)

Section Lookup.

Lemma dict_get_elem {V} k (d : list (string * V)) v :
  dict_get k d = Some v -> (k, v) ∈ d.
Proof.
  induction d as [|[k' v'] d IH]; simpl; [done|].
  destruct (String.eqb k k') eqn:E.
  - apply String.eqb_eq in E as ->. intros [= ->]. by left.
  - intros ?%IH. by right.
Qed.

Lemma dict_get_None {V} k (d : list (string * V)) :
  dict_get k d = None <-> k ∉ d.*1.
Proof.
  induction d as [|[k' v'] d IH]; simpl.
  - split; [intros _ ?%elem_of_nil|]; done.
  - destruct (String.eqb k k') eqn:E.
    + apply String.eqb_eq in E as ->. split; [done|].
      intros []. by left.
    + apply String.eqb_neq in E. rewrite IH, not_elem_of_cons. naive_solver.
Qed.

Lemma dict_get_NoDup {V} k (d : list (string * V)) v :
  NoDup d.*1 -> (k, v) ∈ d -> dict_get k d = Some v.
Proof.
  induction d as [|[k' v'] d IH]; simpl.
  - by intros _ ?%elem_of_nil.
  - intros [Hk Hnd]%NoDup_cons [[= <- <-]|Hin]%elem_of_cons.
    + by rewrite String.eqb_refl.
    + destruct (String.eqb k k') eqn:E; [|by apply IH].
      apply String.eqb_eq in E as ->. destruct Hk.
      apply list_elem_of_fmap. by exists (k', v).
Qed.

Lemma dict_get_is_Some {V} k (d : list (string * V)) :
  k ∈ d.*1 -> ∃ v, dict_get k d = Some v.
Proof.
  intros Hin. destruct (dict_get k d) as [v|] eqn:E; [eauto|].
  by apply dict_get_None in E.
Qed.

(** X3. The registry answers exactly its seven names, each with its own
    class, and every class has one name only; any other name is refused
    with a message that lists the seven. *)
Theorem registry_names :
  (∀ name e, get_extractor name = Ok e <-> (name, e) ∈ EXTRACTORS)
  ∧ (∀ e, ∃ name,
       get_extractor name = Ok e
       ∧ ∀ name', get_extractor name' = Ok e -> name' = name)
  ∧ (∀ name,
       name ∉ EXTRACTORS.*1 ->
       get_extractor name
       = Raise ("Unknown extractor: " +:+ name +:+ ". Available: "
                  +:+ "['default', 'terraform', 'modal', 'convex', "
                  +:+ "'cursor', 'claude_code', 'unsloth']")).
Proof.
  assert (Hiff : ∀ name e, get_extractor name = Ok e <-> (name, e) ∈ EXTRACTORS).
  { intros name e. unfold get_extractor. split.
    - destruct (dict_get name EXTRACTORS) as [e'|] eqn:E; [|done].
      intros [= <-]. by apply dict_get_elem.
    - intros Hin. rewrite (dict_get_NoDup name EXTRACTORS e); [done| |done].
      vm_compute. by apply (bool_decide_unpack _). }
  split_and!; [done| |].
  - intros e.
    assert (∀ name, (name, e) ∈ EXTRACTORS ->
              name = match e with
                     | DefaultExtractor => "default"
                     | TerraformExtractor => "terraform"
                     | ModalExtractor => "modal"
                     | ConvexExtractor => "convex"
                     | CursorExtractor => "cursor"
                     | ClaudeCodeExtractor => "claude_code"
                     | UnslothExtractor => "unsloth"
                     end) as Hname.
    { intros name Hin. unfold EXTRACTORS in Hin.
      repeat (apply elem_of_cons in Hin as [[= -> ->]|Hin]; [done|]).
      by apply elem_of_nil in Hin. }
    eexists. split; [|by intros name' ?%Hiff%Hname].
    by destruct e.
  - intros name Hn%dict_get_None. unfold get_extractor. by rewrite Hn.
Qed.

Context `{Env}.

(** X4. With a readable store of distinct ASCII identifiers,
    [list_sites] returns the identifiers in order; [load_site_config]
    yields the stored entry for every listed identifier and refuses every
    other one as unknown, naming it and then the listed ones as Python
    prints a list of strings. *)
Theorem listed_sites_load (data : list (string * result SiteConfig.t)) :
  sites_json = Ok data ->
  NoDup data.*1 ->
  Forall (fun site_id => PyList.isascii site_id = true) data.*1 ->
  list_sites = Ok data.*1
  ∧ (∀ site_id,
       site_id ∈ data.*1 ->
       ∃ entry, (site_id, entry) ∈ data ∧ load_site_config site_id = entry)
  ∧ (∀ site_id entry,
       (site_id, entry) ∈ data -> load_site_config site_id = entry)
  ∧ (∀ site_id,
       site_id ∉ data.*1 ->
       load_site_config site_id
       = Raise ("Unknown site: " +:+ site_id +:+ ". Available: "
                  +:+ PyList.repr data.*1)).
Proof.
  intros Hdata Hkeys _. unfold list_sites, load_site_config.
  rewrite Hdata. simpl.
  split_and!; [done| | |].
  - intros site_id [entry Hget]%dict_get_is_Some. exists entry.
    rewrite Hget. split; [by apply dict_get_elem|done].
  - intros site_id entry Hin. by rewrite (dict_get_NoDup _ _ _ Hkeys Hin).
  - intros site_id Hn%dict_get_None. by rewrite Hn.
Qed.

(** X5. A configuration error is reported without any executor call: a
    store or site that does not load, then an unknown extractor (whether
    or not the sub-config is there), then a missing links or content
    sub-config, in this order of precedence. *)
Theorem configuration_errors (site_id path : string) :
  (∀ msg,
     load_site_config site_id = Raise msg ->
     scrape_links site_id = Some (failed site_id links_op msg, [])
     ∧ scrape_content site_id path = (failed site_id content_op msg, []))
  ∧ (∀ config msg,
       load_site_config site_id = Ok config ->
       get_extractor (SiteConfig.extractor config) = Raise msg ->
       scrape_links site_id = Some (failed site_id links_op msg, [])
       ∧ scrape_content site_id path = (failed site_id content_op msg, []))
  ∧ (∀ config e,
       load_site_config site_id = Ok config ->
       get_extractor (SiteConfig.extractor config) = Ok e ->
       (SiteConfig.links config = None ->
        scrape_links site_id
        = Some (failed site_id links_op "Site has no links configuration", []))
       ∧ (SiteConfig.content config = None ->
          scrape_content site_id path
          = (failed site_id content_op "Site has no content configuration",
             []))).
Proof.
  unfold scrape_links, scrape_content. split_and!.
  - intros msg ->. done.
  - intros config msg -> Hx. simpl. by rewrite Hx.
  - intros config e -> Hx. simpl. rewrite Hx. simpl.
    split; by intros ->.
Qed.

End Lookup.

(** ** More on the fetch-mode loop *)

Section CrawlMore.
Context `{Env}.
Variable extractor : Extractor.
Variable links_config : LinksDict.t.
Variable max_depth : Z.

Lemma pop_batch_size to_visit visited batch to_visit' visited' batch' :
  pop_batch max_depth to_visit visited batch = (to_visit', visited', batch') ->
  ((length batch ≤ 10)%nat -> (length batch' ≤ 10)%nat)
  ∧ ((length batch' < 10)%nat -> to_visit' = []).
Proof.
  revert visited batch.
  induction to_visit as [|[url depth] rest IH]; intros visited batch; simpl.
  - by intros [= <- <- <-].
  - destruct (decide (length batch < 10)%nat) as [Hlen|Hlen].
    + destruct (decide _).
      * intros [H1 H2]%IH. split; [|done].
        intros _. apply H1. rewrite length_app. simpl. lia.
      * apply IH.
    + intros [= <- <- <-]. split; [done|lia].
Qed.

Lemma process_batch_fetched items st :
  Crawl.fetched (process_batch extractor links_config max_depth items st).1
  = Crawl.fetched st.
Proof.
  revert st. induction items as [|[[u d] res] items IH]; intros st; [done|].
  simpl. destruct res as [html|]; [|apply IH].
  destruct (extract_links _ _ _) as [links|]; [|done].
  rewrite IH. by rewrite fold_add_link.
Qed.

(** X6. A batch never holds more than ten entries, and the inner loop
    stops short of ten only when the queue is used up; so each pass of
    the crawl hands at most ten URLs to the fetcher, whether it ends in
    an exception or not. *)
Theorem batch_at_most_ten :
  (∀ to_visit visited to_visit' visited' batch,
     pop_batch max_depth to_visit visited [] = (to_visit', visited', batch) ->
     (length batch ≤ 10)%nat ∧ ((length batch < 10)%nat -> to_visit' = []))
  ∧ (∀ st st' outcome,
       crawl_iter extractor links_config max_depth st = (st', outcome) ->
       ∃ batch,
         Crawl.fetched st' = Crawl.fetched st ++ batch
         ∧ (length batch ≤ 10)%nat).
Proof.
  split.
  - intros to_visit visited to_visit' visited' batch [H1 H2]%pop_batch_size.
    split; [apply H1; simpl; lia|done].
  - intros st st' outcome. unfold crawl_iter.
    destruct (pop_batch _ _ _ _) as [[rest visited'] batch] eqn:Hpop.
    apply pop_batch_size in Hpop as [Hlen _].
    destruct batch as [|x batch].
    + intros [= <- <-]. exists []. simpl. split; [by rewrite app_nil_r|lia].
    + intros Hp. exists (x :: batch). split; [|apply Hlen; simpl; lia].
      pose proof (f_equal fst Hp) as Hst.
      change (fst (st', outcome)) with st' in Hst.
      rewrite <- Hst. apply process_batch_fetched.
Qed.

Lemma pop_batch_reject to_visit visited batch :
  (length batch < 10)%nat ->
  (∀ u d, (u, d) ∈ to_visit -> ¬ ((u ∉ visited) ∧ d ≤ max_depth)) ->
  pop_batch max_depth to_visit visited batch = ([], visited, batch).
Proof.
  intros Hlen. induction to_visit as [|[url depth] rest IH]; intros Hrej; [done|].
  simpl. destruct (decide (length batch < 10)%nat); [|done].
  destruct (decide _) as [Hacc|_].
  - destruct (Hrej url depth); [by left|done].
  - apply IH. intros u d Hin. apply Hrej. by right.
Qed.

Variable seeds : list string.

(** Whatever is on the frontier or in the fetch log is a seed or a link
    already added to the result set. *)
Lemma reach_seed_or_link st :
  reach extractor links_config max_depth (start_state seeds) st ->
  ∀ u d, (u, d) ∈ Crawl.to_visit st ∨ (u, d) ∈ Crawl.fetched st ->
         u ∈ seeds ∨ u ∈ Crawl.all_links st.
Proof.
  induction 1 as [|st st' Hr IH Hne Hit].
  - intros u d [(s & [= -> ->] & Hs)%list_elem_of_fmap|?%elem_of_nil]; [|done].
    by left.
  - apply crawl_iter_ok in Hit
      as (popped & taken & rest & Htv & -> & _ & _ & Hsub & _).
    assert (Hold : ∀ u d, (u, d) ∈ Crawl.to_visit st ∨ (u, d) ∈ Crawl.fetched st ->
              u ∈ seeds
              ∨ u ∈ list_to_set (taken.*1 ≫= found extractor links_config)
                    ∪ Crawl.all_links st).
    { intros u d Hin. destruct (IH u d Hin); [by left|right; set_solver]. }
    simpl. intros u d [[Hin|Hin]%elem_of_app|[Hin|Hin]%elem_of_app].
    + apply (Hold u d). left. rewrite Htv. apply elem_of_app. by right.
    + apply list_elem_of_bind in Hin as ([u0 d0] & Hc & Hx).
      apply elem_of_children in Hc as (_ & _ & Hl & _). simpl in Hl.
      right. apply elem_of_union. left. apply elem_of_list_to_set.
      apply list_elem_of_bind. exists u0. split; [done|].
      apply list_elem_of_fmap. by exists (u0, d0).
    + apply (Hold u d). by right.
    + apply (Hold u d). left. rewrite Htv. apply elem_of_app. left.
      by apply Hsub.
Qed.

End CrawlMore.

Section FetchSiteMore.
Context `{Env}.
Variable site_id : string.
Variable config : SiteConfig.t.
Variable extractor : Extractor.
Variable links : LinksConfig.t.
Hypothesis Hconfig : load_site_config site_id = Ok config.
Hypothesis Hextractor : get_extractor (SiteConfig.extractor config) = Ok extractor.
Hypothesis Hlinks : SiteConfig.links config = Some links.
Hypothesis Hmode : SiteConfig.mode config = fetch.

Let links_config := links_dict links (SiteConfig.baseUrl config).
Let max_depth := LinksConfig.maxDepth links.
Let seeds := start_urls (SiteConfig.baseUrl config) (LinksConfig.startUrls links).

(** X7. Without start URLs, or with a negative depth limit, fetch-mode
    discovery fetches nothing and succeeds with no links, whatever the
    extractor. *)
Theorem nothing_to_crawl :
  LinksConfig.startUrls links = [] ∨ max_depth < 0 ->
  scrape_links site_id = Some (succeeded site_id links_op [], []).
Proof.
  intros Hcase.
  assert (Hc : ∃ stf,
            crawl extractor links_config max_depth 1 (start_state seeds)
            = Some (stf, None)
            ∧ Crawl.all_links stf = ∅ ∧ Crawl.fetched stf = []).
  { destruct Hcase as [Hnil|Hneg].
    - subst seeds. rewrite Hnil. by eexists.
    - set (st0 := start_state seeds).
      assert (Hpop : pop_batch max_depth (Crawl.to_visit st0) (Crawl.visited st0) []
                     = ([], ∅, [])).
      { apply pop_batch_reject; [simpl; lia|].
        intros u d (u' & [= -> ->] & _)%list_elem_of_fmap [_ ?]. lia. }
      assert (Hall0 : Crawl.all_links st0 = ∅) by done.
      assert (Hf0 : Crawl.fetched st0 = []) by done.
      clearbody st0.
      destruct (Crawl.to_visit st0) as [|x tv] eqn:Htv.
      + exists st0. simpl. by rewrite Htv.
      + exists (Crawl.mk [] ∅ (Crawl.all_links st0) (Crawl.fetched st0)).
        split; [|done].
        simpl. rewrite Htv. unfold crawl_iter. rewrite Htv, Hpop. done. }
  destruct Hc as (stf & Hc & Hall & Hf).
  rewrite (scrape_links_fetch site_id config extractor links) by done.
  fold links_config max_depth seeds.
  destruct (crawl_returns extractor links_config max_depth (start_state seeds))
    as [r Hr].
  rewrite Hr, (crawl_fuel_irrelevant _ _ _ _ _ _ _ _ Hr Hc).
  unfold fetch_calls. by rewrite Hall, Hf.
Qed.

(** X8. In a successful fetch-mode call every URL handed to the fetcher
    lies within [maxDepth] hops of a seed, and is a seed or one of the
    links returned. *)
Theorem fetched_near_seeds (r : ScrapeResult.t) (calls : list Call) :
  scrape_links site_id = Some (r, calls) ->
  ScrapeResult.success r = true ->
  ∀ u, FetchCall u ∈ calls ->
    (∃ n, 0 ≤ n ≤ max_depth ∧ hops extractor links_config seeds n u)
    ∧ (u ∈ seeds ∨ u ∈ ScrapeResult.data r).
Proof.
  intros Hs Hok.
  destruct (scrape_links_success_inv site_id config extractor links
              Hconfig Hextractor Hlinks Hmode r calls Hs Hok)
    as (fuel & stf & Hc & -> & ->).
  pose proof (crawl_reach _ _ _ _ _ _ _ Hc) as [Hrf _].
  intros u Hu.
  apply elem_of_fetch_calls, list_elem_of_fmap in Hu as ([u' d] & -> & Hu).
  simpl. split.
  - apply reach_invariant in Hrf as (_ & IB & _).
    destruct (IB u' d Hu) as [? ?]. by exists d.
  - destruct (reach_seed_or_link _ _ _ _ _ Hrf u' d); [by right|by left|].
    right. by apply elem_of_sorted.
Qed.

End FetchSiteMore.

(** ** What the strategies return *)

Section StrategyOutput.
Context `{Env}.

Lemma bind_Ok {A B} (m : result A) (k : A -> result B) b :
  m ≫= k = Ok b -> ∃ a, m = Ok a ∧ k a = Ok b.
Proof. destruct m as [a|]; [|done]. intros Hk. by exists a. Qed.

(** What [_extract_links_from_html] lets through: the pattern, if there
    is one, occurs in the link, and the link's netloc is the base URL's. *)
Let passes (base_url pattern link : string) : Prop :=
  (pattern = "" ∨ Py.contains pattern link = true)
  ∧ ∃ p1 p2, urlparse link = Ok p1 ∧ urlparse base_url = Ok p2
             ∧ netloc p1 = netloc p2.

Lemma links_from_matches_passes base_url pattern matches acc links :
  (∀ l, l ∈ acc -> passes base_url pattern l) ->
  links_from_matches base_url pattern matches acc = Ok links ->
  ∀ l, l ∈ links -> passes base_url pattern l.
Proof.
  revert acc. induction matches as [|m matches IH]; intros acc Hacc; simpl.
  - by intros [= <-].
  - intros (link & _ & Hk)%bind_Ok. revert Hk.
    destruct (negb (String.eqb pattern "") && negb (Py.contains pattern link))
      eqn:Hpat; [by apply IH|].
    intros (p1 & Hp1 & (p2 & Hp2 & Hk)%bind_Ok)%bind_Ok. revert Hk.
    destruct (String.eqb (netloc p1) (netloc p2)) eqn:Hn; [|by apply IH].
    apply IH. intros l [->%elem_of_singleton|?]%elem_of_union; [|by apply Hacc].
    split.
    + apply andb_false_iff in Hpat as [Hp|Hp]; apply negb_false_iff in Hp.
      * left. by apply String.eqb_eq.
      * by right.
    + exists p1, p2. split_and!; [done..|]. by apply String.eqb_eq.
Qed.

(** X9. Every link the default strategy returns for markup contains the
    configured pattern (when it is not empty) and has the netloc of the
    base URL; markup without any href yields the empty list without
    parsing a URL. *)
Theorem html_links_filtered (html base_url pattern : string) :
  (∀ links,
     _extract_links_from_html html base_url pattern = Ok links ->
     ∀ l, l ∈ links ->
       (pattern = "" ∨ Py.contains pattern l = true)
       ∧ ∃ p1 p2, urlparse l = Ok p1 ∧ urlparse base_url = Ok p2
                  ∧ netloc p1 = netloc p2)
  ∧ (Re.finditer_href 0 html = [] ->
     _extract_links_from_html html base_url pattern = Ok []).
Proof.
  unfold _extract_links_from_html. split.
  - intros links (s & Hs & [= <-])%bind_Ok l Hl%elem_of_sorted.
    eapply (links_from_matches_passes base_url pattern); [|done..].
    by intros ? ?%elem_of_empty.
  - intros ->. reflexivity.
Qed.

Lemma links_from_hrefs_clean base_url pattern raw acc links :
  (∀ l, l ∈ acc ->
     _clean_url l = l ∧ (pattern = "" ∨ Py.contains pattern l = true)) ->
  links_from_hrefs base_url pattern raw acc = Ok links ->
  ∀ l, l ∈ links ->
    _clean_url l = l ∧ (pattern = "" ∨ Py.contains pattern l = true).
Proof.
  revert acc. induction raw as [|m raw IH]; intros acc Hacc; simpl.
  - by intros [= <-].
  - destruct (negb (String.eqb pattern "")
              && negb (Py.contains pattern (_clean_url m))) eqn:Hpat;
      [by apply IH|].
    intros ([] & _ & Hk)%bind_Ok; [|by eapply IH].
    revert Hk. apply IH.
    intros l [->%elem_of_singleton|?]%elem_of_union; [|by apply Hacc].
    split; [apply clean_url_fixed|].
    apply andb_false_iff in Hpat as [Hp|Hp]; apply negb_false_iff in Hp.
    + left. by apply String.eqb_eq.
    + by right.
Qed.

Lemma terraform_doc_links_clean base_url raw l :
  l ∈ terraform_doc_links base_url raw ->
  _clean_url l = l ∧ Py.startswith l base_url = true.
Proof.
  unfold terraform_doc_links.
  assert (Hgen : ∀ acc : gset string,
            (∀ x, x ∈ acc -> _clean_url x = x ∧ Py.startswith x base_url = true) ->
            l ∈ fold_left
                  (fun results link =>
                     if Py.startswith (_clean_url link) base_url
                     then {[_clean_url link]} ∪ results else results) raw acc ->
            _clean_url l = l ∧ Py.startswith l base_url = true).
  { induction raw as [|m raw IH]; intros acc Hacc; simpl; [by apply Hacc|].
    apply IH. destruct (Py.startswith (_clean_url m) base_url) eqn:Hs; [|done].
    intros x [->%elem_of_singleton|?]%elem_of_union; [|by apply Hacc].
    split; [apply clean_url_fixed|done]. }
  apply Hgen. by intros x ?%elem_of_empty.
Qed.

(** X10. The links a strategy reads off a live page are all in cleaned
    form.  Those of the default strategy contain the pattern when there
    is one; those of the Terraform strategy start with the base URL. *)
Theorem page_links_clean (page : Page.t) :
  (∀ base_url pattern links,
     _extract_links_from_page page base_url pattern = Ok links ->
     ∀ l, l ∈ links ->
       _clean_url l = l ∧ (pattern = "" ∨ Py.contains pattern l = true))
  ∧ (∀ config links,
       extract_links TerraformExtractor (LivePage page) config = Ok links ->
       ∀ l, l ∈ links ->
         _clean_url l = l
         ∧ Py.startswith l (LinksDict.baseUrl config) = true).
Proof.
  split.
  - intros base_url pattern links. unfold _extract_links_from_page.
    intros (raw & _ & (s & Hs & [= <-])%bind_Ok)%bind_Ok l Hl%elem_of_sorted.
    eapply links_from_hrefs_clean; [|done..]. by intros ? ?%elem_of_empty.
  - intros config links. simpl.
    intros ([] & _ & (raw & _ & [= <-])%bind_Ok)%bind_Ok l Hl%elem_of_sorted.
    by eapply terraform_doc_links_clean.
Qed.

End StrategyOutput.

(** ** Browser-mode discovery and fetch-mode content *)

Section OtherPaths.
Context `{Env}.

Lemma extract_links_page_sorted e page config links :
  extract_links e (LivePage page) config = Ok links ->
  ∃ s : gset string, links = PyList.sorted s.
Proof.
  assert (Hdefault :
            _extract_links_from_page page (LinksDict.baseUrl config)
              (LinksDict.pattern config) = Ok links ->
            ∃ s : gset string, links = PyList.sorted s).
  { unfold _extract_links_from_page.
    intros (raw & _ & (s & _ & [= <-])%bind_Ok)%bind_Ok. eauto. }
  destruct e; try exact Hdefault.
  simpl. intros ([] & _ & (raw & _ & [= <-])%bind_Ok)%bind_Ok. eauto.
Qed.

Lemma sorted_again (s : gset string) :
  PyList.sorted (list_to_set (PyList.sorted s) ∪ ∅) = PyList.sorted s.
Proof.
  f_equal. apply set_eq. intros x.
  rewrite elem_of_union, elem_of_list_to_set, elem_of_sorted. set_solver.
Qed.

(** X11. Browser-mode discovery visits one page only, the base URL
    followed by the first start URL (or by nothing when there is none),
    whatever the depth limit and the other start URLs; it makes no fetch,
    and on success its data is the strategy's list as it stands. *)
Theorem browser_discovery_single_page (site_id : string)
    (config : SiteConfig.t) (e : Extractor) (links : LinksConfig.t) :
  load_site_config site_id = Ok config ->
  get_extractor (SiteConfig.extractor config) = Ok e ->
  SiteConfig.links config = Some links ->
  SiteConfig.mode config = browser ->
  let url :=
    SiteConfig.baseUrl config
      +:+ match LinksConfig.startUrls links with
          | path :: _ => path
          | [] => ""
          end in
  scrape_links site_id
  = Some (match (page ← browser_page url (LinksConfig.waitFor links) [];
                 extract_links e (LivePage page)
                   (links_dict links (SiteConfig.baseUrl config))) with
          | Ok found_links => succeeded site_id links_op found_links
          | Raise msg => failed site_id links_op msg
          end,
          [BrowserCall url (LinksConfig.waitFor links) []]).
Proof.
  intros Hc He Hl Hm. simpl. unfold scrape_links.
  rewrite Hc. simpl. rewrite He. simpl. rewrite Hl, Hm.
  destruct (browser_page _ _ _) as [page|]; [|done]. simpl.
  destruct (extract_links _ _ _) as [found_links|] eqn:Hx; [|done]. simpl.
  apply extract_links_page_sorted in Hx as [s ->].
  by rewrite sorted_again.
Qed.

(** X12. In fetch mode, with any extractor but the Terraform one, a
    content call makes the one fetch of base URL plus path and returns
    the page's markup whole as its only data element; if the fetch
    raises, it fails with the fetch's message. *)
Theorem fetch_content_whole_page (site_id path : string)
    (config : SiteConfig.t) (e : Extractor) (content : ContentConfig.t) :
  load_site_config site_id = Ok config ->
  get_extractor (SiteConfig.extractor config) = Ok e ->
  e ≠ TerraformExtractor ->
  SiteConfig.content config = Some content ->
  match ContentConfig.mode content with
  | Some m => m
  | None => SiteConfig.mode config
  end = fetch ->
  scrape_content site_id path
  = (match fetch_html (SiteConfig.baseUrl config +:+ path) with
     | Ok html => succeeded site_id content_op [html]
     | Raise msg => failed site_id content_op msg
     end,
     [FetchCall (SiteConfig.baseUrl config +:+ path)]).
Proof.
  intros Hc He Hne Hcontent Hm. unfold scrape_content.
  rewrite Hc. simpl. rewrite He. simpl. rewrite Hcontent, Hm.
  destruct (fetch_html _) as [html|]; [|done]. simpl. by destruct e.
Qed.

(** X13. Whenever an extractor copies the page through the clipboard
    (the five site extractors always, the default one for the method
    [click_copy]), its content is the clipboard text as one element, or
    no element at all when the clipboard comes back empty. *)
Theorem clipboard_content_shape (e : Extractor) (page : Page.t)
    (config : ContentDict.t) (data : list string) :
  e ≠ TerraformExtractor ->
  (e = DefaultExtractor -> ContentDict.method config = click_copy) ->
  extract_content e (LivePage page) config = Ok data ->
  ∃ text, Page.read_clipboard page = Ok text
          ∧ data = if String.eqb text "" then [] else [text].
Proof.
  intros Hne Hdefault.
  assert (Hcopy : _click_copy page (ContentDict.selector config) = Ok data ->
            ∃ text, Page.read_clipboard page = Ok text
                    ∧ data = if String.eqb text "" then [] else [text]).
  { unfold _click_copy.
    intros ([] & _ & (text & Ht & [= <-])%bind_Ok)%bind_Ok. eauto. }
  destruct e; simpl; try done.
  - rewrite Hdefault by done. exact Hcopy.
  - by intros ([] & _ & ?%Hcopy)%bind_Ok.
  - by intros ([] & _ & ?%Hcopy)%bind_Ok.
  - by intros ([] & _ & ?%Hcopy)%bind_Ok.
  - by intros ([] & _ & ?%Hcopy)%bind_Ok.
  - by intros ([] & _ & ?%Hcopy)%bind_Ok.
Qed.

End OtherPaths.

(** ** Fetching many pages *)

Section FetchAll.
Variable Timeout : Type.
Variable fetch_html_timeout : string -> Timeout -> result string.

Lemma gathered_lookup (timeout : Timeout) (urls : list string) (u : string)
    (acc : gmap string string) :
  fold_left (fun results '(url, html) => <[url:=html]> results)
    (map (fetch_one Timeout fetch_html_timeout timeout) urls) acc !! u
  = if decide (u ∈ urls)
    then Some match fetch_html_timeout u timeout with
              | Ok html => html
              | Raise _ => ""
              end
    else acc !! u.
Proof.
  revert acc. induction urls as [|x urls IH]; intros acc.
  - case_decide as Hin; [by apply elem_of_nil in Hin|done].
  - change (map ?g (x :: urls)) with (g x :: map g urls).
    change (fold_left ?f (?a :: ?l) acc) with (fold_left f l (f acc a)).
    rewrite IH. unfold fetch_one.
    destruct (decide (u ∈ urls)) as [Hin|Hnin].
    + by rewrite decide_True by (by right).
    + destruct (decide (u = x)) as [->|Hne].
      * rewrite decide_True by (by left).
        destruct (fetch_html_timeout x timeout); by rewrite lookup_insert_eq.
      * rewrite decide_False by (by intros [?|?]%elem_of_cons).
        destruct (fetch_html_timeout x timeout); by rewrite lookup_insert_ne.
Qed.

(** X14. [fetch_all_html] raises a [ValueError] for a negative
    [concurrency], before any fetch, and never returns for
    [concurrency] 0 unless there is nothing to fetch.  In every other
    case it returns, whatever the fetches do: its dict has an entry for
    each of the URLs and for nothing else, holding the page, or the empty
    string where the fetch failed. *)
Theorem fetch_all_html_lookup (urls : list string) (timeout : Timeout)
    (concurrency : Z) :
  (concurrency < 0 ->
   fetch_all_html Timeout fetch_html_timeout urls timeout concurrency
   = Some (Raise "Semaphore initial value must be >= 0"))
  ∧ (concurrency = 0 -> urls ≠ [] ->
     fetch_all_html Timeout fetch_html_timeout urls timeout concurrency = None)
  ∧ (0 < concurrency ∨ (concurrency = 0 ∧ urls = []) ->
     ∃ results,
       fetch_all_html Timeout fetch_html_timeout urls timeout concurrency
       = Some (Ok results)
       ∧ ∀ u, results !! u
              = if decide (u ∈ urls)
                then Some match fetch_html_timeout u timeout with
                          | Ok html => html
                          | Raise _ => ""
                          end
                else None).
Proof.
  unfold fetch_all_html, Semaphore. split_and!.
  - intros Hneg. by rewrite decide_True.
  - intros -> Hurls. rewrite decide_False by lia. by rewrite decide_True.
  - intros Hcase. rewrite decide_False by lia.
    rewrite decide_False by (intros [-> Hurls]; destruct Hcase as [?|[_ ?]];
                             [lia|done]).
    eexists. split; [done|]. intros u. rewrite gathered_lookup.
    by destruct (decide _).
Qed.

End FetchAll.

(** ** Failed fetches and empty pages *)

Section FailureAsEmptyPage.
Context `{Env}.

Variable extractor : Extractor.
Variable links_config : LinksDict.t.
Variable max_depth : Z.
Hypothesis Hextractor : extractor ≠ TerraformExtractor.

Lemma empty_page_links :
  extract_links extractor (Html "") links_config = Ok [].
Proof. by destruct extractor. Qed.

Lemma found_empty_on_failure u :
  @found empty_on_failure extractor links_config u
  = found extractor links_config u.
Proof.
  unfold found. simpl. destruct (fetch_html u) as [html|]; [done|].
  change (@extract_links empty_on_failure) with (@extract_links H).
  by rewrite empty_page_links.
Qed.

Lemma weight_empty_on_failure levels u :
  @weight empty_on_failure extractor links_config levels u
  = weight extractor links_config levels u.
Proof.
  revert u. induction levels as [|levels IH]; intros u; [done|].
  simpl. rewrite found_empty_on_failure. f_equal.
  induction (found extractor links_config u) as [|l ls IHl]; [done|].
  simpl. by rewrite IH, IHl.
Qed.

Lemma process_batch_empty_on_failure batch st :
  @process_batch empty_on_failure extractor links_config max_depth
    (PyList.zip batch
       (map (fun '(url, _) => @fetch_html empty_on_failure url) batch)) st
  = process_batch extractor links_config max_depth
      (PyList.zip batch (map (fun '(url, _) => fetch_html url) batch)) st.
Proof.
  revert st. induction batch as [|[u d] batch IH]; intros st; [done|].
  simpl. change (@extract_links empty_on_failure) with (@extract_links H).
  destruct (fetch_html u) as [html|].
  - destruct (extract_links _ _ _); [apply IH|done].
  - rewrite empty_page_links. apply IH.
Qed.

Lemma crawl_empty_on_failure fuel st :
  @crawl empty_on_failure extractor links_config max_depth fuel st
  = crawl extractor links_config max_depth fuel st.
Proof.
  revert st. induction fuel as [|fuel IH]; intros st; [done|].
  simpl. destruct (Crawl.to_visit st) eqn:Htv; [done|].
  assert (@crawl_iter empty_on_failure extractor links_config max_depth st
          = crawl_iter extractor links_config max_depth st) as ->.
  { unfold crawl_iter.
    destruct (pop_batch _ _ _ _) as [[rest visited'] batch].
    destruct batch; [done|]. apply process_batch_empty_on_failure. }
  destruct (crawl_iter _ _ _ _) as [st' [e|]]; [done|apply IH].
Qed.

Lemma budget_empty_on_failure st :
  @crawl_budget empty_on_failure extractor links_config max_depth st
  = crawl_budget extractor links_config max_depth st.
Proof.
  unfold crawl_budget, entry_weight. f_equal.
  induction (Crawl.to_visit st) as [|x l IH]; [done|].
  simpl. by rewrite weight_empty_on_failure, IH.
Qed.

End FailureAsEmptyPage.

Section FailureAsEmptyPageSite.
Context `{Env}.

(** X15. For a site whose extractor is not the Terraform one, link
    discovery cannot tell a failed fetch from an empty page: with an
    empty page served wherever the fetch raises, it makes the same calls
    and returns the same result. *)
Theorem failed_fetch_as_empty_page (site_id : string) :
  (∀ config,
     load_site_config site_id = Ok config ->
     SiteConfig.extractor config ≠ "terraform") ->
  @scrape_links empty_on_failure site_id = scrape_links site_id.
Proof.
  intros Hname. unfold scrape_links.
  change (@load_site_config empty_on_failure) with (@load_site_config H).
  unfold mbind, result_bind.
  destruct (load_site_config site_id) as [config|] eqn:Hc; [|done].
  specialize (Hname config eq_refl). cbv beta iota.
  destruct (get_extractor (SiteConfig.extractor config)) as [e|] eqn:He;
    [|done].
  cbv beta iota. destruct (SiteConfig.links config) as [links|]; [|done].
  destruct (SiteConfig.mode config); [|done].
  assert (Hne : e ≠ TerraformExtractor).
  { intros ->. apply Hname. unfold get_extractor in He.
    destruct (dict_get _ EXTRACTORS) as [e'|] eqn:Hg; [|done].
    injection He as ->. apply dict_get_elem in Hg. unfold EXTRACTORS in Hg.
    repeat (apply elem_of_cons in Hg as [Heq|Hg]; [by simplify_eq|]).
    by apply elem_of_nil in Hg. }
  by rewrite budget_empty_on_failure, crawl_empty_on_failure.
Qed.

End FailureAsEmptyPageSite.

(** ** The command line's [_print_result] *)

Section PrintResult.


End PrintResult.

(** ** The legacy [scrape] *)

Section LegacyScrape.
Context {D : Type}.
Variable new_page :
  list string -> result (string -> string -> Z -> result Page.t).

(** X17. A result of the legacy [scrape] names its job and URL, and is
    either a success with at least one entry and no error, or a failure
    with no entry and an error: unlike the site operations it never
    reports success with nothing found. *)
Theorem legacy_result_shape (job : Legacy.ScrapeJob)
    (parse_fn : option (string -> result D))
    (extract_fn : option Extract.ExtractFn) (r : Legacy.LegacyScrapeResult D) :
  Legacy.scrape new_page job parse_fn extract_fn = Ok r ->
  Legacy.job_name r = Legacy.name job
  ∧ Legacy.result_url r = Legacy.url job
  ∧ if Legacy.success r
    then Legacy.entries r ≠ [] ∧ Legacy.error r = None
    else Legacy.entries r = [] ∧ is_Some (Legacy.error r).
Proof.
  unfold Legacy.scrape.
  intros (f & _ & (goto & _ & [= <-])%bind_Ok)%bind_Ok.
  destruct (_ ≫= _) as [[|x entries]|msg]; simpl; eauto.
Qed.

(** X18. Without an extraction function, [scrape] raises before any
    browser is launched for the method [custom] (a [ValueError]) and for
    [terraform_links], which the registry lacks (a [KeyError]).  In every
    other case an exception leaves [scrape] only if opening the page
    does; what goes wrong on the page comes back as a failed result. *)
Theorem legacy_exceptions (job : Legacy.ScrapeJob)
    (parse_fn : option (string -> result D)) :
  (Legacy.method job = Legacy.Std custom ->
   Legacy.scrape new_page job parse_fn None
   = Raise ("Job '" +:+ Legacy.name job
              +:+ "' has method='custom' but no extract_fn provided"))
  ∧ (Legacy.method job = Legacy.terraform_links ->
     Legacy.scrape new_page job parse_fn None = Raise "'terraform_links'")
  ∧ (∀ extract_fn,
       is_Some extract_fn
       ∨ (Legacy.method job ≠ Legacy.Std custom
          ∧ Legacy.method job ≠ Legacy.terraform_links) ->
       match new_page match Legacy.method job with
                      | Legacy.Std click_copy =>
                          ["clipboard-read"; "clipboard-write"]
                      | _ => []
                      end with
       | Ok _ => ∃ r, Legacy.scrape new_page job parse_fn extract_fn = Ok r
       | Raise msg =>
           Legacy.scrape new_page job parse_fn extract_fn = Raise msg
       end).
Proof.
  unfold Legacy.scrape. split_and!.
  - by intros ->.
  - by intros ->.
  - intros extract_fn Hcase. destruct extract_fn as [f|].
    + simpl. destruct (new_page _); simpl; eauto.
    + destruct Hcase as [[? [=]]|[Hc Ht]].
      destruct (Legacy.method job) as [[]| |]; try done; simpl;
        destruct (new_page _); simpl; eauto.
Qed.

End LegacyScrape.

(** ** The further theorems at work *)

Lemma listed_sites_load_witness :
  @sites_json DocsA.world_root = Ok [("docs-a", Ok DocsA.scenario)]
  ∧ NoDup ["docs-a"]
  ∧ Forall (fun site_id => PyList.isascii site_id = true) ["docs-a"]
  ∧ @list_sites DocsA.world_root = Ok ["docs-a"]
  ∧ @load_site_config DocsA.world_root "docs-b"
    = Raise "Unknown site: docs-b. Available: ['docs-a']".
Proof.
  assert (Hkeys : NoDup ["docs-a"]).
  { apply NoDup_singleton. }
  assert (Hascii : Forall (fun site_id => PyList.isascii site_id = true)
                     ["docs-a"]).
  { apply Forall_singleton. reflexivity. }
  split_and!; [reflexivity|exact Hkeys|exact Hascii| |];
    destruct (@listed_sites_load DocsA.world_root
                [("docs-a", Ok DocsA.scenario)] eq_refl Hkeys Hascii)
      as (Hlist & _ & _ & Hno); [exact Hlist|].
  apply (Hno "docs-b"). simpl.
  intros [Heq|Hin]%elem_of_cons; [discriminate Heq|by apply elem_of_nil in Hin].
Defined.

Lemma nothing_to_crawl_witness :
  @scrape_links DocsB.world_idle "docs-a"
  = Some (succeeded "docs-a" links_op [], []).
Proof.
  apply (@nothing_to_crawl DocsB.world_idle "docs-a" DocsB.idle_site
           DefaultExtractor (LinksConfig.mk [] "/guide" None 1)
           eq_refl eq_refl eq_refl eq_refl).
  left. reflexivity.
Defined.

Lemma fetched_near_seeds_witness :
  @scrape_links DocsA.world_intro "docs-a"
  = Some (succeeded "docs-a" links_op
            ["https://docs-a.test/guide/advanced";
             "https://docs-a.test/guide/intro"],
          [FetchCall "https://docs-a.test";
           FetchCall "https://docs-a.test/guide/intro"])
  ∧ (DocsA.intro ∈ [DocsA.base]
     ∨ DocsA.intro ∈ ["https://docs-a.test/guide/advanced";
                      "https://docs-a.test/guide/intro"]).
Proof.
  assert (Hs : @scrape_links DocsA.world_intro "docs-a"
               = Some (succeeded "docs-a" links_op
                         ["https://docs-a.test/guide/advanced";
                          "https://docs-a.test/guide/intro"],
                       [FetchCall "https://docs-a.test";
                        FetchCall "https://docs-a.test/guide/intro"])).
  { vm_compute. reflexivity. }
  split; [exact Hs|].
  destruct (@fetched_near_seeds DocsA.world_intro "docs-a" DocsA.scenario
              DefaultExtractor DocsA.links eq_refl eq_refl eq_refl eq_refl
              _ _ Hs eq_refl DocsA.intro) as [_ Hnear].
  - apply list_elem_of_further, list_elem_of_here.
  - exact Hnear.
Defined.

Lemma browser_discovery_single_page_witness :
  @scrape_links DocsB.world_browser "docs-a"
  = Some (succeeded "docs-a" links_op ["https://docs-a.test/guide/intro"],
          [BrowserCall "https://docs-a.test/guide" None []]).
Proof.
  exact (@browser_discovery_single_page DocsB.world_browser "docs-a"
           DocsB.browser_site DefaultExtractor DocsB.browser_links
           eq_refl eq_refl eq_refl eq_refl).
Defined.

Lemma fetch_content_whole_page_witness :
  @scrape_content DocsB.world_content "docs-a" ""
  = (succeeded "docs-a" content_op [DocsA.root_page],
     [FetchCall "https://docs-a.test"]).
Proof.
  apply (@fetch_content_whole_page DocsB.world_content "docs-a" ""
           DocsB.content_site ModalExtractor DocsA.fetch_content);
    try reflexivity.
  discriminate.
Defined.

Lemma clipboard_content_shape_witness :
  ∃ text,
    Page.read_clipboard DocsA.hello_page = Ok text
    ∧ ["Hello"] = if String.eqb text "" then [] else [text].
Proof.
  apply (clipboard_content_shape ModalExtractor DocsA.hello_page
           (content_dict DocsA.fetch_content DocsA.base) ["Hello"]).
  - discriminate.
  - discriminate.
  - reflexivity.
Defined.

Lemma failed_fetch_as_empty_page_witness :
  @scrape_links (@empty_on_failure DocsA.world_root) "docs-a"
  = @scrape_links DocsA.world_root "docs-a".
Proof.
  apply (@failed_fetch_as_empty_page DocsA.world_root "docs-a").
  intros config Hc. vm_compute in Hc. injection Hc as <-. discriminate.
Defined.

Lemma legacy_result_shape_witness :
  Legacy.scrape (D := string) DocsB.new_hello_page DocsB.hello_job None None
  = Ok {| Legacy.job_name := "hello";
          Legacy.result_url := "https://docs-a.test/guide/intro";
          Legacy.success := true;
          Legacy.entries := [inr "<p>Hello</p>"];
          Legacy.error := None |}
  ∧ [inr "<p>Hello</p>"] ≠ ([] : list (string + string)).
Proof.
  assert (Hs : Legacy.scrape (D := string) DocsB.new_hello_page
                 DocsB.hello_job None None
               = Ok {| Legacy.job_name := "hello";
                       Legacy.result_url := "https://docs-a.test/guide/intro";
                       Legacy.success := true;
                       Legacy.entries := [inr "<p>Hello</p>"];
                       Legacy.error := None |}).
  { vm_compute. reflexivity. }
  split; [exact Hs|].
  destruct (legacy_result_shape DocsB.new_hello_page DocsB.hello_job None None
              _ Hs) as (_ & _ & Hshape).
  exact (proj1 Hshape).
Defined.

(** ** The crawl is breadth-first and complete *)

Section BreadthFirst.
Context `{Env}.
Variable extractor : Extractor.
Variable links_config : LinksDict.t.
Variable max_depth : Z.

(** Entries in order of depth. *)
Let by_depth (x y : string * Z) : Prop := x.2 ≤ y.2.

Lemma pop_batch_order to_visit visited batch to_visit' visited' batch' :
  StronglySorted by_depth to_visit ->
  pop_batch max_depth to_visit visited batch = (to_visit', visited', batch') ->
  ∃ popped taken,
    to_visit = popped ++ to_visit' ∧ batch' = batch ++ taken
    ∧ taken `sublist_of` popped
    ∧ ∀ u d, (u, d) ∈ popped -> d ≤ max_depth -> u ∉ visited ->
        ∃ d', (u, d') ∈ taken ∧ d' ≤ d.
Proof.
  revert visited batch.
  induction to_visit as [|[url depth] rest IH]; intros visited batch Hsorted;
    simpl.
  - intros [= <- <- <-]. exists [], []. rewrite !app_nil_r.
    split_and!; [done|done|constructor|]. by intros u d ?%elem_of_nil.
  - apply StronglySorted_inv in Hsorted as [Hrest Hhead].
    destruct (decide (length batch < 10)%nat) as [Hlen|Hlen].
    + destruct (decide ((url ∉ visited) ∧ depth ≤ max_depth)) as [[Hv Hd]|Hrej].
      * intros (popped & taken & -> & -> & Hsub & Hfirst)%IH; [|done].
        exists ((url, depth) :: popped), ((url, depth) :: taken).
        split_and!; [done|by rewrite <- app_assoc|by constructor|].
        intros u d Hin Hle Hu.
        destruct (decide (u = url)) as [->|Hne].
        -- exists depth. split; [by left|].
           apply elem_of_cons in Hin as [[= ->]|Hin]; [done|].
           rewrite Forall_forall in Hhead.
           apply (Hhead (url, d)). apply elem_of_app. by left.
        -- apply elem_of_cons in Hin as [[= -> ->]|Hin]; [done|].
           destruct (Hfirst u d Hin Hle) as (d' & Hd' & Hle'); [set_solver|].
           exists d'. split; [by right|done].
      * intros (popped & taken & -> & -> & Hsub & Hfirst)%IH; [|done].
        exists ((url, depth) :: popped), taken.
        split_and!; [done|done|by constructor|].
        intros u d [[= -> ->]|Hin]%elem_of_cons Hle Hu; [by destruct Hrej|].
        by apply Hfirst.
    + intros [= <- <- <-]. exists [], []. rewrite !app_nil_r.
      split_and!; [done|done|constructor|]. by intros u d ?%elem_of_nil.
Qed.

(** A successful pass over a queue in order of depth: besides what
    [crawl_iter_ok] tells, the batch keeps the order of the queue, and of
    the entries popped for one fresh URL the shallowest is taken. *)
Lemma crawl_iter_sorted st st' :
  StronglySorted by_depth (Crawl.to_visit st) ->
  crawl_iter extractor links_config max_depth st = (st', None) ->
  ∃ popped taken rest,
    Crawl.to_visit st = popped ++ rest
    ∧ st' = Crawl.mk
              (rest ++ (taken ≫= fun x =>
                          children max_depth x.2
                            (list_to_set taken.*1 ∪ Crawl.visited st)
                            (found extractor links_config x.1)))
              (list_to_set taken.*1 ∪ Crawl.visited st)
              (list_to_set (taken.*1 ≫= found extractor links_config)
                 ∪ Crawl.all_links st)
              (Crawl.fetched st ++ taken)
    ∧ taken `sublist_of` popped
    ∧ ∀ u d, (u, d) ∈ popped -> d ≤ max_depth -> u ∉ Crawl.visited st ->
        ∃ d', (u, d') ∈ taken ∧ d' ≤ d.
Proof.
  intros Hsorted. unfold crawl_iter.
  destruct (pop_batch max_depth (Crawl.to_visit st) (Crawl.visited st) [])
    as [[rest visited'] batch] eqn:Hpop.
  destruct (pop_batch_order _ _ _ _ _ _ Hsorted Hpop)
    as (popped & taken & Htv & -> & Hsub & Hfirst).
  apply (pop_batch_spec extractor links_config) in Hpop
    as (popped' & taken' & Htv' & [= <-] & -> & _).
  simpl. intros Hproc. exists popped, taken, rest.
  split_and!; [done| |done|done].
  destruct taken as [|x taken].
  - injection Hproc as <-. simpl. rewrite !app_nil_r. f_equal. set_solver.
  - by apply process_batch_ok in Hproc as [-> _].
Qed.

Lemma same_depth_sorted (d : Z) (l : list (string * Z)) :
  (∀ x, x ∈ l -> x.2 = d) -> StronglySorted by_depth l.
Proof.
  induction l as [|x l IH]; intros Hd; constructor.
  - apply IH. intros y Hy. apply Hd. by right.
  - apply Forall_forall. intros y Hy. unfold by_depth.
    rewrite (Hd x), (Hd y); [lia|by right|by left].
Qed.

Lemma sublist_sorted (l k : list (string * Z)) :
  l `sublist_of` k -> StronglySorted by_depth k -> StronglySorted by_depth l.
Proof.
  induction 1 as [|x l k Hsub IH|x l k Hsub IH]; [done| |];
    intros [Hk Hx]%StronglySorted_inv; [|by apply IH].
  constructor; [by apply IH|].
  rewrite Forall_forall in Hx |- *. intros y Hy. apply Hx.
  by eapply elem_of_sublist.
Qed.

Lemma bind_children_sorted taken visited :
  StronglySorted by_depth taken ->
  StronglySorted by_depth
    (taken ≫= fun x =>
       children max_depth x.2 visited (found extractor links_config x.1)).
Proof.
  induction taken as [|t taken IH]; [constructor|].
  intros [Htaken Ht]%StronglySorted_inv. rewrite bind_cons.
  apply StronglySorted_app_2; [| |by apply IH].
  - intros [l1 d1] [l2 d2] (-> & _)%elem_of_children
      (t' & (-> & _)%elem_of_children & Ht')%list_elem_of_bind.
    rewrite Forall_forall in Ht. specialize (Ht t' Ht').
    unfold by_depth in *. simpl. lia.
  - apply same_depth_sorted with (t.2 + 1).
    by intros [l d] (-> & _)%elem_of_children.
Qed.

Variable seeds : list string.

(** The queue of the loop is in order of depth, lies at or below the pages
    fetched so far, and spans at most two adjacent depths. *)
Lemma breadth_first st :
  reach extractor links_config max_depth (start_state seeds) st ->
  StronglySorted by_depth (Crawl.to_visit st)
  ∧ (∀ f q, f ∈ Crawl.fetched st -> q ∈ Crawl.to_visit st -> f.2 ≤ q.2)
  ∧ (∀ q1 q2, q1 ∈ Crawl.to_visit st -> q2 ∈ Crawl.to_visit st ->
       q2.2 ≤ q1.2 + 1).
Proof.
  induction 1 as [|st st' Hr (IS & IB1 & IB2) Hne Hiter].
  - simpl. split_and!.
    + apply same_depth_sorted with 0.
      by intros x (u & -> & _)%list_elem_of_fmap.
    + by intros f q ?%elem_of_nil.
    + intros q1 q2 (u1 & -> & _)%list_elem_of_fmap
        (u2 & -> & _)%list_elem_of_fmap. simpl. lia.
  - destruct (crawl_iter_sorted _ _ IS Hiter)
      as (popped & taken & rest & Htv & -> & Hsub & _).
    simpl. rewrite Htv in IS, IB1, IB2.
    pose proof IS as (Hcross & Hpopped & Hrest)%StronglySorted_app.
    assert (Htp : ∀ x, x ∈ taken -> x ∈ popped).
    { intros x Hx. by eapply elem_of_sublist. }
    set (new := taken ≫= _).
    assert (Hnew : ∀ c, c ∈ new -> ∃ t, t ∈ taken ∧ c.2 = t.2 + 1).
    { intros [l d] (t & (-> & _)%elem_of_children & Ht)%list_elem_of_bind.
      by exists t. }
    unfold by_depth in Hcross.
    split_and!.
    + apply StronglySorted_app_2; [|done|].
      * intros x1 x2 H1 (t & Ht & Hd)%Hnew. unfold by_depth.
        pose proof (IB2 t x1). rewrite Hd. set_solver.
      * apply bind_children_sorted. by eapply sublist_sorted.
    + intros f q [Hf|Hf]%elem_of_app [Hq|Hq]%elem_of_app.
      * apply IB1; set_solver.
      * apply Hnew in Hq as (t & Ht & ->).
        pose proof (IB1 f t). etrans; [|apply Z.le_succ_diag_r]. set_solver.
      * apply Hcross; set_solver.
      * apply Hnew in Hq as (t & Ht & ->). apply IB2; set_solver.
    + intros q1 q2 [H1|H1]%elem_of_app [H2|H2]%elem_of_app.
      * apply IB2; set_solver.
      * apply Hnew in H2 as (t & Ht & ->).
        assert (t.2 ≤ q1.2) by (apply Hcross; set_solver). lia.
      * apply Hnew in H1 as (t & Ht & ->).
        assert (q2.2 ≤ t.2 + 1) by (apply IB2; set_solver). lia.
      * apply Hnew in H1 as (t1 & Ht1 & ->).
        apply Hnew in H2 as (t2 & Ht2 & ->).
        assert (t2.2 ≤ t1.2 + 1) by (apply IB2; set_solver). lia.
Qed.

(** [url] has been fetched at depth [k] or less, or waits in the queue
    at such a depth without having been taken. *)
Let waiting (st : Crawl.t) (url : string) (k : Z) : Prop :=
  (∃ d, (url, d) ∈ Crawl.fetched st ∧ d ≤ k)
  ∨ ((url ∉ Crawl.visited st)
     ∧ ∃ d, (url, d) ∈ Crawl.to_visit st ∧ d ≤ k).

Lemma waiting_iter st st' u k :
  StronglySorted by_depth (Crawl.to_visit st) ->
  crawl_iter extractor links_config max_depth st = (st', None) ->
  k ≤ max_depth -> waiting st u k -> waiting st' u k.
Proof.
  intros IS Hiter Hk Hw.
  destruct (crawl_iter_sorted _ _ IS Hiter)
    as (popped & taken & rest & Htv & -> & Hsub & Hfirst).
  unfold waiting in *. simpl.
  destruct Hw as [(d & Hd & Hle)|(Hnv & d & Hd & Hle)].
  - left. exists d. split; [|done]. apply elem_of_app. by left.
  - rewrite Htv in Hd, IS. apply elem_of_app in Hd as [Hd|Hd].
    + destruct (Hfirst u d Hd) as (d' & Hd' & Hle'); [lia|done|].
      left. exists d'. split; [|lia]. apply elem_of_app. by right.
    + destruct (decide (u ∈ taken.*1)) as [Hin|Hnin].
      * apply list_elem_of_fmap in Hin as ([u' d'] & -> & Hin).
        left. exists d'. split; [apply elem_of_app; by right|].
        assert (Hdd : by_depth (u', d') (u', d)).
        { eapply StronglySorted_app_1_elem_of; [exact IS| |exact Hd].
          by eapply elem_of_sublist. }
        unfold by_depth in Hdd. simpl in Hdd. lia.
      * right. split; [set_solver|]. exists d. split; [|done].
        apply elem_of_app. by left.
Qed.

(** Every link of a fetched page below the limit, and every seed, has been
    fetched no deeper than one level below that page, or still waits. *)
Lemma waiting_invariant st :
  reach extractor links_config max_depth (start_state seeds) st ->
  (∀ u d l, (u, d) ∈ Crawl.fetched st ->
     l ∈ found extractor links_config u -> d < max_depth ->
     waiting st l (d + 1))
  ∧ (0 ≤ max_depth -> ∀ s, s ∈ seeds -> waiting st s 0).
Proof.
  induction 1 as [|st st' Hr [IJ Iseed] Hne Hiter].
  - split.
    + by intros u d l ?%elem_of_nil.
    + intros _ s Hs. right. split; [set_solver|]. exists 0. split; [|done].
      simpl. apply list_elem_of_fmap. by exists s.
  - pose proof (breadth_first _ Hr) as (IS & IB1 & IB2).
    pose proof (reach_invariant _ _ _ _ _ Hr) as (_ & _ & Hvis & _).
    split.
    + intros u d l Hu Hl Hd.
      destruct (crawl_iter_sorted _ _ IS Hiter)
        as (popped & taken & rest & Htv & Hst' & Hsub & Hfirst).
      assert (Hf' : Crawl.fetched st' = Crawl.fetched st ++ taken)
        by (by rewrite Hst').
      rewrite Hf' in Hu. apply elem_of_app in Hu as [Hu|Hu].
      * apply (waiting_iter st); [done|done|lia|]. by apply (IJ u d l).
      * assert (Hup : (u, d) ∈ Crawl.to_visit st).
        { rewrite Htv. apply elem_of_app. left. by eapply elem_of_sublist. }
        subst st'. unfold waiting. simpl.
        destruct (decide (l ∈ taken.*1)) as [Hlt|Hlt].
        -- apply list_elem_of_fmap in Hlt as ([l' d'] & -> & Hlt).
           left. exists d'. split; [apply elem_of_app; by right|].
           apply (IB2 (u, d) (l', d')); [done|].
           rewrite Htv. apply elem_of_app. left. by eapply elem_of_sublist.
        -- destruct (decide (l ∈ Crawl.visited st)) as [Hlv|Hlv].
           ++ rewrite Hvis in Hlv.
              apply elem_of_list_to_set, list_elem_of_fmap in Hlv
                as ([l' d'] & -> & Hlv).
              left. exists d'. split; [apply elem_of_app; by left|].
              pose proof (IB1 _ _ Hlv Hup) as Hle. simpl in Hle. simpl. lia.
           ++ right. split; [set_solver|]. exists (d + 1). split; [|lia].
              apply elem_of_app. right. apply list_elem_of_bind.
              exists (u, d). split; [|done]. apply elem_of_children.
              split_and!; [done|done|done|set_solver].
    + intros Hmax s Hs. apply (waiting_iter st); [done|done|done|].
      by apply Iseed.
Qed.

Lemma hops_nonneg n u : hops extractor links_config seeds n u -> 0 ≤ n.
Proof. induction 1; lia. Qed.

(** When the loop has run to its end, whatever lies within the limit has
    been fetched, and no deeper than its distance from the seeds. *)
Lemma hops_fetched st n u :
  reach extractor links_config max_depth (start_state seeds) st ->
  Crawl.to_visit st = [] ->
  hops extractor links_config seeds n u -> n ≤ max_depth ->
  ∃ d, (u, d) ∈ Crawl.fetched st ∧ d ≤ n.
Proof.
  intros Hr Hend. destruct (waiting_invariant _ Hr) as [IJ Iseed].
  assert (Hdone : ∀ v k, waiting st v k -> ∃ d, (v, d) ∈ Crawl.fetched st ∧ d ≤ k).
  { intros v k [Hf|(_ & d & Hd & _)]; [done|].
    rewrite Hend in Hd. by apply elem_of_nil in Hd. }
  induction 1 as [s Hs|n u links l Hu IH Hpage Hl]; intros Hn.
  - apply Hdone, Iseed; done.
  - destruct IH as (d & Hd & Hle); [lia|].
    destruct (Hdone l (d + 1)) as (d' & Hd' & Hle').
    { apply (IJ u d); [done| |lia].
      by rewrite (page_links_found _ _ _ _ Hpage). }
    exists d'. split; [done|lia].
Qed.

(** The whole loop: what it fetches and what it collects. *)
Lemma crawl_exact fuel stf :
  crawl extractor links_config max_depth fuel (start_state seeds)
  = Some (stf, None) ->
  (∀ u, u ∈ (Crawl.fetched stf).*1
        <-> ∃ n, 0 ≤ n ≤ max_depth ∧ hops extractor links_config seeds n u)
  ∧ (∀ l, l ∈ Crawl.all_links stf
          <-> ∃ n, 1 ≤ n ≤ max_depth + 1
                   ∧ hops extractor links_config seeds n l).
Proof.
  intros Hc. apply crawl_reach in Hc as [Hr Hend].
  pose proof (reach_invariant _ _ _ _ _ Hr)
    as (_ & IF & _ & _ & _ & Hall & Hall' & _).
  split.
  - intros u. split.
    + intros ([u' d] & -> & Hu)%list_elem_of_fmap.
      destruct (IF _ _ Hu) as [Hd Hh]. by exists d.
    + intros (n & [_ Hn] & Hh).
      destruct (hops_fetched _ _ _ Hr Hend Hh Hn) as (d & Hd & _).
      apply list_elem_of_fmap. by exists (u, d).
  - intros l. split.
    + intros (u & d & Hu & Hl)%Hall'.
      destruct (IF _ _ Hu) as [Hd Hh]. exists (d + 1).
      split; [lia|]. by eapply found_hops.
    + intros (n & [Hn1 Hn] & Hh).
      inversion Hh as [s Hs Heq|m u links l' Hu Hpage Hl Heq]; subst; [lia|].
      destruct (hops_fetched _ _ _ Hr Hend Hu) as (d & Hd & _); [lia|].
      apply (Hall u d l Hd).
      by rewrite (page_links_found _ _ _ _ Hpage).
Qed.

End BreadthFirst.

Section FetchSiteExact.
Context `{Env}.
Variable site_id : string.
Variable config : SiteConfig.t.
Variable extractor : Extractor.
Variable links : LinksConfig.t.
Hypothesis Hconfig : load_site_config site_id = Ok config.
Hypothesis Hextractor : get_extractor (SiteConfig.extractor config) = Ok extractor.
Hypothesis Hlinks : SiteConfig.links config = Some links.
Hypothesis Hmode : SiteConfig.mode config = fetch.

Let links_config := links_dict links (SiteConfig.baseUrl config).
Let max_depth := LinksConfig.maxDepth links.
Let seeds := start_urls (SiteConfig.baseUrl config) (LinksConfig.startUrls links).

(** X19. A successful fetch-mode discovery is exact: the URLs handed to the
    fetcher are those within [maxDepth] hops of a seed, and the links
    returned are those found on served pages within [maxDepth], that is,
    the URLs one to [maxDepth + 1] hops from a seed. *)
Theorem discovery_exact (r : ScrapeResult.t) (calls : list Call) :
  scrape_links site_id = Some (r, calls) ->
  ScrapeResult.success r = true ->
  (∀ u, FetchCall u ∈ calls
        <-> ∃ n, 0 ≤ n ≤ max_depth ∧ hops extractor links_config seeds n u)
  ∧ (∀ l, l ∈ ScrapeResult.data r
          <-> ∃ n, 1 ≤ n ≤ max_depth + 1
                   ∧ hops extractor links_config seeds n l).
Proof.
  intros Hs Hok.
  destruct (scrape_links_success_inv site_id config extractor links
              Hconfig Hextractor Hlinks Hmode r calls Hs Hok)
    as (fuel & stf & Hc & -> & ->).
  destruct (crawl_exact _ _ _ _ _ _ Hc) as [Hcalls Hdata].
  split.
  - intros u. by rewrite elem_of_fetch_calls.
  - intros l. by rewrite elem_of_sorted.
Qed.

End FetchSiteExact.

Lemma discovery_exact_witness :
  @scrape_links DocsA.world_intro "docs-a"
  = Some (succeeded "docs-a" links_op
            ["https://docs-a.test/guide/advanced";
             "https://docs-a.test/guide/intro"],
          [FetchCall "https://docs-a.test";
           FetchCall "https://docs-a.test/guide/intro"])
  ∧ ∃ n, 1 ≤ n ≤ LinksConfig.maxDepth DocsA.links + 1
         ∧ @hops DocsA.world_intro DefaultExtractor
             (links_dict DocsA.links (SiteConfig.baseUrl DocsA.scenario))
             (start_urls (SiteConfig.baseUrl DocsA.scenario)
                (LinksConfig.startUrls DocsA.links))
             n "https://docs-a.test/guide/advanced".
Proof.
  assert (Hs : @scrape_links DocsA.world_intro "docs-a"
               = Some (succeeded "docs-a" links_op
                         ["https://docs-a.test/guide/advanced";
                          "https://docs-a.test/guide/intro"],
                       [FetchCall "https://docs-a.test";
                        FetchCall "https://docs-a.test/guide/intro"])).
  { vm_compute. reflexivity. }
  split; [exact Hs|].
  destruct (@discovery_exact DocsA.world_intro "docs-a" DocsA.scenario
              DefaultExtractor DocsA.links eq_refl eq_refl eq_refl eq_refl
              _ _ Hs eq_refl) as [_ Hdata].
  apply Hdata, list_elem_of_here.
Defined.

(** ** Results are whole *)

Section Results.
Context `{Env}.

(** The page whose links could not be read is among those fetched. *)
Lemma crawl_iter_raise_at extractor links_config max_depth st st' msg :
  crawl_iter extractor links_config max_depth st = (st', Some msg) ->
  ∃ u d html,
    (u, d) ∈ Crawl.fetched st' ∧ fetch_html u = Ok html
    ∧ extract_links extractor (Html html) links_config = Raise msg.
Proof.
  unfold crawl_iter.
  destruct (pop_batch max_depth (Crawl.to_visit st) (Crawl.visited st) [])
    as [[rest visited'] batch] eqn:Hpop.
  simpl. destruct batch as [|x batch]; [done|].
  intros [Hfe (u & d & html & Hin & Hf & Hx)]%process_batch_raise.
  exists u, d, html. split; [|done].
  rewrite Hfe. simpl. apply elem_of_app. by right.
Qed.

Lemma links_fetch_result site_id config extractor links r calls :
  load_site_config site_id = Ok config ->
  get_extractor (SiteConfig.extractor config) = Ok extractor ->
  SiteConfig.links config = Some links ->
  SiteConfig.mode config = fetch ->
  scrape_links site_id = Some (r, calls) ->
  ScrapeResult.site r = site_id ∧ ScrapeResult.operation r = links_op
  ∧ if ScrapeResult.success r
    then ScrapeResult.error r = None ∧ links_complete site_id r calls
    else ScrapeResult.data r = []
         ∧ ∃ msg, ScrapeResult.error r = Some msg
                  ∧ links_raised site_id calls msg.
Proof.
  intros Hconfig Hextractor Hlinks Hmode Hs.
  destruct (scrape_links_fetch_inv site_id config extractor links
              Hconfig Hextractor Hlinks Hmode r calls Hs)
    as (fuel & stf & [msg|] & Hc & -> & ->); simpl.
  - split_and!; [done|done|done|]. exists msg. split; [done|].
    unfold links_raised. rewrite Hconfig, Hextractor, Hlinks, Hmode.
    apply crawl_reach in Hc as (stl & _ & _ & Hiter).
    apply crawl_iter_raise_at in Hiter as (u & d & html & Hin & Hf & Hx).
    exists u, html. split; [|done].
    apply elem_of_fetch_calls, list_elem_of_fmap. by exists (u, d).
  - split_and!; [done|done|done|].
    exists config, extractor, links. split_and!; [done|done|done|].
    rewrite Hmode. cbv zeta.
    destruct (crawl_exact _ _ _ _ _ _ Hc) as [Hcalls _].
    apply crawl_reach in Hc as [Hr _].
    apply reach_invariant in Hr as (_ & _ & _ & _ & Hex & Hall & Hall' & _).
    split_and!.
    + intros url. by rewrite elem_of_fetch_calls.
    + intros url html ([u d] & -> & Hin)%elem_of_fetch_calls%list_elem_of_fmap.
      by apply (Hex u d).
    + intros link. unfold succeeded. cbn [ScrapeResult.data].
      rewrite elem_of_sorted. split.
      * intros (u & d & Hin & (found_links & Hp & Hl)%found_page_links)%Hall'.
        exists u, found_links. split_and!; [|done|done].
        apply elem_of_fetch_calls, list_elem_of_fmap. by exists (u, d).
      * intros (url & found_links & Hin & Hp & Hl).
        apply elem_of_fetch_calls, list_elem_of_fmap in Hin
          as ([u d] & -> & Hin).
        apply (Hall u d link Hin). cbn [fst] in Hp.
        by rewrite (page_links_found _ _ _ _ Hp).
Qed.

Lemma scrape_content_input site_id path config extractor content :
  load_site_config site_id = Ok config ->
  get_extractor (SiteConfig.extractor config) = Ok extractor ->
  SiteConfig.content config = Some content ->
  (scrape_content site_id path).1
  = match (input ← content_input config content path;
           extract_content extractor input
             (content_dict content (SiteConfig.baseUrl config))) with
    | Ok data => succeeded site_id content_op data
    | Raise e => failed site_id content_op e
    end.
Proof.
  intros Hconfig Hextractor Hcontent. unfold scrape_content, content_input.
  rewrite Hconfig. simpl. rewrite Hextractor. simpl. rewrite Hcontent.
  destruct (match ContentConfig.mode content with
            | Some m => m | None => SiteConfig.mode config end); simpl.
  - by destruct (fetch_html _).
  - by destruct (browser_page _ _ _).
Qed.

(** C5. [scrape_links] always returns, and every result of either
    operation names its site and operation and is whole.  A success has
    no error and all of its data: the links found on the fetched pages,
    every page within the depth limit having been fetched and read; or
    the list the strategy read off the browser page; or the content the
    strategy returned.  A failure has no data and an error, which is the
    text of the exception that ended the call or names the missing
    sub-config. *)
Theorem result_never_partial (site_id path : string) :
  (∃ r calls, scrape_links site_id = Some (r, calls))
  ∧ (∀ r calls,
       scrape_links site_id = Some (r, calls) ->
       ScrapeResult.site r = site_id ∧ ScrapeResult.operation r = links_op
       ∧ if ScrapeResult.success r
         then ScrapeResult.error r = None ∧ links_complete site_id r calls
         else ScrapeResult.data r = []
              ∧ ∃ msg, ScrapeResult.error r = Some msg
                       ∧ links_raised site_id calls msg)
  ∧ (let r := (scrape_content site_id path).1 in
     ScrapeResult.site r = site_id ∧ ScrapeResult.operation r = content_op
     ∧ if ScrapeResult.success r
       then ScrapeResult.error r = None ∧ content_complete site_id path r
       else ScrapeResult.data r = []
            ∧ ∃ msg, ScrapeResult.error r = Some msg
                     ∧ content_raised site_id path msg).
Proof.
  split_and!.
  - unfold scrape_links.
    destruct (_ ≫= _) as [[config e]|msg]; [|eauto].
    destruct (SiteConfig.links config) as [links|]; [|eauto].
    destruct (SiteConfig.mode config); [|eauto].
    match goal with
    | |- context [crawl ?e ?c ?m (crawl_budget _ _ _ ?st) _] =>
        destruct (crawl_returns e c m st) as [[stf [msg|]] ->]; eauto
    end.
  - intros r calls Hs.
    destruct (load_site_config site_id) as [config|e0] eqn:Hconfig.
    2:{ revert Hs. unfold scrape_links, links_raised. rewrite Hconfig.
        intros [= <- <-]. simpl. eauto 10. }
    destruct (get_extractor (SiteConfig.extractor config))
      as [extractor|e0] eqn:Hextractor.
    2:{ revert Hs. unfold scrape_links, links_raised.
        rewrite Hconfig. simpl. rewrite Hextractor.
        intros [= <- <-]. simpl. eauto 10. }
    destruct (SiteConfig.links config) as [links|] eqn:Hlinks.
    2:{ revert Hs. unfold scrape_links, links_raised.
        rewrite Hconfig. simpl. rewrite Hextractor. simpl. rewrite Hlinks.
        intros [= <- <-]. simpl. eauto 10. }
    destruct (SiteConfig.mode config) eqn:Hmode.
    { by eapply links_fetch_result. }
    revert Hs. unfold scrape_links, links_raised, links_complete.
    rewrite Hconfig. simpl. rewrite Hextractor. simpl. rewrite Hlinks, Hmode.
    destruct (browser_page _ _ _) as [page|e0] eqn:Hpage; simpl.
    2:{ intros [= <- <-]. simpl. eauto 10. }
    destruct (extract_links extractor (LivePage page) _)
      as [found_links|e0] eqn:Hx; simpl.
    2:{ intros [= <- <-]. simpl. eauto 10. }
    intros [= <- <-]. simpl. split_and!; [done|done|done|].
    exists config, extractor, links. rewrite Hmode.
    split_and!; [done|done|done|]. exists page. split; [done|].
    rewrite Hx. f_equal.
    apply extract_links_page_sorted in Hx as [s' ->]. by rewrite sorted_again.
  - cbv zeta. unfold content_raised, content_complete.
    destruct (load_site_config site_id) as [config|e0] eqn:Hconfig.
    2:{ unfold scrape_content. rewrite Hconfig. simpl. eauto 10. }
    destruct (get_extractor (SiteConfig.extractor config))
      as [extractor|e0] eqn:Hextractor.
    2:{ unfold scrape_content. rewrite Hconfig. simpl. rewrite Hextractor.
        simpl. eauto 10. }
    destruct (SiteConfig.content config) as [content|] eqn:Hcontent.
    2:{ unfold scrape_content. rewrite Hconfig. simpl. rewrite Hextractor.
        simpl. rewrite Hcontent. simpl. eauto 10. }
    rewrite (scrape_content_input _ _ _ _ _ Hconfig Hextractor Hcontent).
    destruct (content_input config content path) as [input|e0] eqn:Hinput;
      simpl; [|eauto 10].
    destruct (extract_content extractor input _) as [data|e0] eqn:Hx; simpl;
      [|eauto 10].
    split_and!; [done|done|done|].
    by exists config, extractor, content, input.
Qed.

End Results.

(** C5 as the spec states it fails: a fetch that ends in an exception
    without a text leaves a failed result whose error explains nothing. *)
Lemma error_text_can_be_empty :
  @scrape_content DocsB.world_timeout "docs-a" ""
  = (failed "docs-a" content_op "", [FetchCall "https://docs-a.test"])
  ∧ ScrapeResult.success (failed "docs-a" content_op "") = false
  ∧ ScrapeResult.error (failed "docs-a" content_op "") = Some "".
Proof. split_and!; vm_compute; reflexivity. Qed.

Lemma result_never_partial_witness :
  @scrape_links DocsA.world_intro "docs-a"
  = Some (succeeded "docs-a" links_op
            ["https://docs-a.test/guide/advanced";
             "https://docs-a.test/guide/intro"],
          [FetchCall "https://docs-a.test";
           FetchCall "https://docs-a.test/guide/intro"])
  ∧ @links_complete DocsA.world_intro "docs-a"
      (succeeded "docs-a" links_op
         ["https://docs-a.test/guide/advanced";
          "https://docs-a.test/guide/intro"])
      [FetchCall "https://docs-a.test";
       FetchCall "https://docs-a.test/guide/intro"].
Proof.
  assert (Hs : @scrape_links DocsA.world_intro "docs-a"
               = Some (succeeded "docs-a" links_op
                         ["https://docs-a.test/guide/advanced";
                          "https://docs-a.test/guide/intro"],
                       [FetchCall "https://docs-a.test";
                        FetchCall "https://docs-a.test/guide/intro"])).
  { vm_compute. reflexivity. }
  split; [exact Hs|].
  destruct (@result_never_partial DocsA.world_intro "docs-a" "")
    as (_ & Hlinks & _).
  destruct (Hlinks _ _ Hs) as (_ & _ & _ & Hcomplete). exact Hcomplete.
Defined.
